(** * Sentence classification by MorphConv: a shallow embedding

    The notebook [challenge_nsmc/Sentence classification by MorphConv.ipynb]
    is a linear script: it splits the rating file into train and validation
    rows, tokenises the reviews, builds a vocabulary from the training
    tokens, encodes every review as 30 integers, builds a convolutional
    classifier as a TensorFlow 1.12 graph and runs the training loop.

    Each notebook cell is translated below.  The library calls the cells
    make (numpy, keras, gluonnlp, tensorflow) are translated from the
    behaviour of the library function at the arguments the notebook passes;
    every such definition says which library function it stands for.
    The tokenizer, the pretrained embedding table, the random number
    generators, floating-point arithmetic and the Adam update are
    parameters of the development. *)

From Stdlib Require Import QArith Qround Qminmax.
From stdpp Require Import base list strings gmap fin_maps sorting.

Open Scope nat_scope.

(** ** Python lists *)

Module python.

(** [s[-k:]]: the last [k] items of [s]; [-0] is [0], so [s[-0:]] is the
    whole list. *)
Definition slice_last {A} (k : nat) (s : list A) : list A :=
  if decide (k = 0) then s else drop (length s - k) s.

(** [s[:k]]. *)
Definition slice_first {A} (k : nat) (s : list A) : list A := take k s.

(** Insertion of [x] before the first item it does not follow, the step of
    a stable sort. *)
Fixpoint insert_stable {A} (le : A → A → bool) (x : A) (l : list A) : list A :=
  match l with
  | [] => [x]
  | y :: l' => if le x y then x :: l else y :: insert_stable le x l'
  end.

(** [sorted(l, key=...)] and [l.sort(key=..., reverse=...)]: Python's sort
    is stable (items with equal keys keep their order, also with
    [reverse=True]); [le x y] says that the key of [x] may come before
    the key of [y]. *)
Definition sorted {A} (le : A → A → bool) (l : list A) : list A :=
  foldr (insert_stable le) [] l.

End python.

(** ** keras.preprocessing.sequence.pad_sequences *)

Module keras_preprocessing.

(** The values of the [padding] and [truncating] arguments. *)
Inductive side := pre | post.

(** One row of [pad_sequences]: the row starts as [maxlen] copies of
    [value] ([np.full]); an empty sequence leaves it so ([continue]);
    otherwise the sequence is truncated to at most [maxlen] items
    ([s[-maxlen:]] for ['pre'], [s[:maxlen]] for ['post']) and written
    over the start of the row ([x[idx, :len(trunc)] = trunc], ['post'])
    or over its end ([x[idx, -len(trunc):] = trunc], ['pre']). *)
Definition pad_row (maxlen : nat) (padding truncating : side) (value : nat)
    (s : list nat) : list nat :=
  let x := replicate maxlen value in
  if decide (length s = 0) then x
  else
    let trunc :=
      match truncating with
      | pre => python.slice_last maxlen s
      | post => python.slice_first maxlen s
      end in
    match padding with
    | post => trunc ++ drop (length trunc) x
    | pre => take (length x - length trunc) x ++ trunc
    end.

(** [pad_sequences(sequences, maxlen, dtype='int32', padding, truncating,
    value)]: a matrix with one row per sequence. *)
Definition pad_sequences (sequences : list (list nat)) (maxlen : nat)
    (padding truncating : side) (value : nat) : list (list nat) :=
  pad_row maxlen padding truncating value <$> sequences.

End keras_preprocessing.

(** ** gluonnlp: token counting and the vocabulary *)

Module gluonnlp.

(** [C.UNK_IDX], the index of the unknown token in every vocabulary. *)
Definition UNK_IDX : nat := 0.

(** [nlp.data.count_tokens(tokens)]: a [collections.Counter] updated with
    every token ([counter[token] = counter.get(token, 0) + 1]). *)
Definition count_tokens (tokens : list string) : gmap string nat :=
  foldl (λ counter token, <[token := S (default 0 (counter !! token))]> counter)
        ∅ tokens.

(** [DefaultLookupDict]: a dict whose [__getitem__] is
    [self.get(k, self._default)]; a lookup stores nothing. *)
Record DefaultLookupDict := {
  dict_default : nat;
  dict_items : gmap string nat
}.

Definition getitem (d : DefaultLookupDict) (k : string) : nat :=
  default (dict_default d) (dict_items d !! k).

Definition setitem (k : string) (v : nat) (d : DefaultLookupDict) : DefaultLookupDict :=
  {| dict_default := dict_default d; dict_items := <[k := v]> (dict_items d) |}.

(** [enumerate(l)]. *)
Definition enumerate {A} (l : list A) : list (nat * A) := imap (λ i x, (i, x)) l.

(** The index part of a [Vocab]. *)
Record Vocab := {
  unknown_token : string;
  reserved_tokens : list string;
  idx_to_token : list string;
  token_to_idx : DefaultLookupDict
}.

(** [Vocab._index_special_tokens]: the unknown token gets index 0, the
    special tokens follow. *)
Definition index_special_tokens (unknown : string) (special_tokens : list string) : Vocab :=
  let i2t := unknown :: special_tokens in
  {| unknown_token := unknown;
     reserved_tokens := special_tokens;
     idx_to_token := i2t;
     token_to_idx :=
       foldl (λ d it, setitem it.2 it.1 d)
             {| dict_default := UNK_IDX; dict_items := ∅ |} (enumerate i2t) |}.

(** The order of [token_freqs]: [sorted(counter.items(), key=token)]
    followed by [sort(key=frequency, reverse=True)]. *)
Definition token_le (a b : string * nat) : bool := String.leb a.1 b.1.
Definition freq_ge (a b : string * nat) : bool := bool_decide (b.2 ≤ a.2).

Definition token_freqs (counter : gmap string nat) : list (string * nat) :=
  python.sorted freq_ge (python.sorted token_le (map_to_list counter)).

(** The loop of [Vocab._index_counter_keys]: it stops ([break]) at the
    first token whose frequency is below [min_freq] or when the
    vocabulary is full, skips the unknown and special tokens, and appends
    every other token with the next free index. *)
Fixpoint index_loop (unknown_and_special_tokens : gset string)
    (token_cap min_freq : nat) (tfs : list (string * nat)) (v : Vocab) : Vocab :=
  match tfs with
  | [] => v
  | (token, freq) :: tfs' =>
      if decide (freq < min_freq ∨ length (idx_to_token v) = token_cap) then v
      else if decide (token ∈ unknown_and_special_tokens)
      then index_loop unknown_and_special_tokens token_cap min_freq tfs' v
      else
        let i2t := idx_to_token v ++ [token] in
        index_loop unknown_and_special_tokens token_cap min_freq tfs'
          {| unknown_token := unknown_token v;
             reserved_tokens := reserved_tokens v;
             idx_to_token := i2t;
             token_to_idx := setitem token (length i2t - 1) (token_to_idx v) |}
  end.

(** [Vocab._index_counter_keys] with [max_size=None]. *)
Definition index_counter_keys (counter : gmap string nat) (special_tokens : list string)
    (min_freq : nat) (v : Vocab) : Vocab :=
  let unknown_and_special_tokens : gset string :=
    list_to_set special_tokens ∪ {[unknown_token v]} in
  let token_cap := size unknown_and_special_tokens + size counter in
  index_loop unknown_and_special_tokens token_cap min_freq (token_freqs counter) v.

(** [nlp.Vocab(counter, bos_token=None, eos_token=None, min_freq=...)]:
    the unknown token ['<unk>'] and the padding token ['<pad>'] keep
    their defaults, and the padding token is the only special token. *)
Definition mkVocab (counter : gmap string nat) (min_freq : nat) : Vocab :=
  let special_tokens := ["<pad>"%string] in
  index_counter_keys counter special_tokens min_freq
    (index_special_tokens "<unk>"%string special_tokens).

(** [len(vocab)]. *)
Definition len (v : Vocab) : nat := length (idx_to_token v).

Section embedding.
(** A row of the embedding table; [V] is the type of its entries. *)
Context {V : Type}.

(** A pretrained [TokenEmbedding]: [idx_to_vec[0]] is the vector of its
    unknown token, [embs[token]] the vector it serves for a token. *)
Record TokenEmbedding := {
  unknown_vec : list V;
  vec_of : string → list V
}.

(** [vocab.set_embedding(embs)] for one source: row 0 of the new table
    is the source's unknown vector, row [i > 0] is the source's vector
    of [idx_to_token[i]].  The result is [vocab.embedding.idx_to_vec]. *)
Definition set_embedding (v : Vocab) (embs : TokenEmbedding) : list (list V) :=
  match idx_to_token v with
  | [] => []
  | _ :: rest => unknown_vec embs :: (vec_of embs <$> rest)
  end.
End embedding.
Global Arguments TokenEmbedding : clear implicits.

End gluonnlp.

(** ** Cells 5 to 8: tokenisation, vocabulary, encoding *)

Module preprocessing.
Import keras_preprocessing gluonnlp.

Section cells.
(** [mecab.morphs]: the tokenizer, text to tokens. *)
Variable morphs : string → list string.
Context {V : Type}.
(** [fasttext_simple], the pretrained embedding. *)
Variable fasttext_simple : TokenEmbedding V.

(** Cell 5: [ratings.document.apply(mecab.morphs).tolist()]. *)
Definition tokenize (documents : list string) : list (list string) :=
  morphs <$> documents.

(** Cell 6: the counter over the chained training sentences and the
    vocabulary with [min_freq=15]. *)
Definition counter (X_tr : list (list string)) : gmap string nat :=
  count_tokens (concat X_tr).

Definition vocab (X_tr : list (list string)) : Vocab :=
  mkVocab (counter X_tr) 15.

(** The arguments [maxlen = 30] and [value = 1.] of cell 8; the rows
    are [int32], so the value written is the integer 1. *)
Definition maxlen : nat := 30.
Definition value : nat := 1.

(** Cell 8, one split: every token is looked up in
    [vocab.token_to_idx], then the rows are padded to [maxlen] with
    [value] ([padding='post'], [truncating] left at ['pre']). *)
Definition to_idx (vocab : Vocab) (sen : list string) : list nat :=
  getitem (token_to_idx vocab) <$> sen.

Definition encode (vocab : Vocab) (X : list (list string)) : list (list nat) :=
  pad_sequences (to_idx vocab <$> X) maxlen post pre value.

(** The names bound after cell 8. *)
Record Namespace := {
  ns_vocab : Vocab;
  ns_embedding : list (list V);
  X_tr : list (list nat);
  X_val : list (list nat);
  X_tst : list (list nat)
}.

(** The state before cell 8: the vocabulary with its embedding attached
    (cells 6 and 7) and no encoded split yet. *)
Definition build_vocab (tr : list string) : Namespace :=
  let v := vocab (tokenize tr) in
  {| ns_vocab := v; ns_embedding := set_embedding v fasttext_simple;
     X_tr := []; X_val := []; X_tst := [] |}.

(** Cell 8 on the namespace: the three splits are encoded with
    [ns.vocab]; the vocabulary and the embedding are only read. *)
Definition final_preprocessing (tr val tst : list (list string)) (ns : Namespace) : Namespace :=
  {| ns_vocab := ns_vocab ns; ns_embedding := ns_embedding ns;
     X_tr := encode (ns_vocab ns) tr;
     X_val := encode (ns_vocab ns) val;
     X_tst := encode (ns_vocab ns) tst |}.

(** Cells 5 to 8 in sequence, from the documents of the three splits. *)
Definition preprocess (tr val tst : list string) : Namespace :=
  final_preprocessing (tokenize tr) (tokenize val) (tokenize tst) (build_vocab tr).

(** The whole pipeline on one review. *)
Definition encode_review (v : Vocab) (document : string) : list nat :=
  pad_row maxlen post pre value (to_idx v (morphs document)).
End cells.
Global Arguments Namespace : clear implicits.

End preprocessing.

(** ** numpy: random choice without replacement and [np.delete] *)

Module numpy.

(** [x[i], x[j] = x[j], x[i]] on an array. *)
Definition swap {A} (i j : nat) (x : list A) : list A :=
  match x !! i, x !! j with
  | Some a, Some b => <[i := b]> (<[j := a]> x)
  | _, _ => x
  end.

(** [arr[idx]] for an array of indices [idx]. *)
Definition fancy_index {A} (arr : list A) (idx : list nat) : list A :=
  omap (λ i, arr !! i) idx.

(** [np.delete(arr, obj, axis=0)] for a one-dimensional [arr] and an
    array of indices [obj]: [keep = ones(N, dtype=bool)],
    [keep[obj,] = False], [arr[keep]]. *)
Definition keep_mask (n : nat) (obj : list nat) : list bool :=
  foldl (λ keep i, <[i := false]> keep) (replicate n true) obj.

Definition delete (arr : list nat) (obj : list nat) : list nat :=
  (filter (λ p, p.2 = true) (zip arr (keep_mask (length arr) obj))).*1.

Section random.
(** The state of the global [RandomState] and its bounded draw:
    [rk_interval max state] is a number between 0 and [max]. *)
Context {RandomState : Type}.
Variable rk_interval : nat → RandomState → nat * RandomState.

(** [RandomState.shuffle(x)]: for [i] from [n-1] down to 1, draw [j]
    in [0..i] and swap [x[i]] with [x[j]].  [shuffle_from i] runs the
    iterations [i, i-1, .., 1]. *)
Fixpoint shuffle_from {A} (i : nat) (x : list A) (st : RandomState) : list A * RandomState :=
  match i with
  | 0 => (x, st)
  | S i' =>
      let '(j, st') := rk_interval i st in
      shuffle_from i' (swap i j x) st'
  end.

Definition shuffle {A} (x : list A) (st : RandomState) : list A * RandomState :=
  shuffle_from (length x - 1) x st.

(** [RandomState.permutation(n)]: [arange(n)] shuffled. *)
Definition permutation (n : nat) (st : RandomState) : list nat * RandomState :=
  shuffle (seq 0 n) st.

(** [np.random.choice(a, size, replace=False)] with uniform weights:
    an empty population and a sample larger than the population raise
    [ValueError] ([None]); otherwise the sample is [a] at the first
    [size] entries of a random permutation of its positions. *)
Definition choice (a : list nat) (size : nat) (st : RandomState)
    : option (list nat * RandomState) :=
  let pop_size := length a in
  if decide (pop_size = 0) then None
  else if decide (pop_size < size) then None
  else
    let '(p, st') := permutation pop_size st in
    Some (fancy_index a (take size p), st').
End random.

End numpy.

(** ** Cell 3: the train/validation split *)

Module split.
Import numpy.

(** [range(n)]. *)
Definition range (n : nat) : list nat := seq 0 n.

(** [int(n * .2)]: the double nearest to 0.2 exceeds 0.2 by [0.4 * 2^-55],
    so for a multiple [n = 5 m] the exact product is [m + m * 2^-54],
    less than half a unit in the last place above [m], and rounds to [m];
    for other [n] the product is at least 0.2 away from an integer.
    For every row count below [2^52] the result is the quotient of [n]
    by 5. *)
Definition int_times_02 (n : nat) : nat := n / 5.

Section cell_3.
Context {RandomState : Type}.
Variable rk_interval : nat → RandomState → nat * RandomState.

(** [val_indices] and [tr_indices] for a rating file of [n] rows
    ([ratings.shape[0]]). *)
Definition val_indices (n : nat) (st : RandomState) : option (list nat * RandomState) :=
  choice rk_interval (range n) (int_times_02 n) st.

Definition tr_indices (n : nat) (val_indices : list nat) : list nat :=
  delete (range n) val_indices.

(** The two index arrays of the cell: the pair [(tr_indices, val_indices)]. *)
Definition split_indices (n : nat) (st : RandomState) : option (list nat * list nat) :=
  '(val, _) ← val_indices n st;
  Some (tr_indices n val, val).

(** [ratings.iloc[indices, :]]: the rows at the given positions. *)
Definition iloc {A} (ratings : list A) (indices : list nat) : list A :=
  fancy_index ratings indices.

(** The cell: the pair [(ratings_tr, ratings_val)]. *)
Definition split_ratings {A} (ratings : list A) (st : RandomState)
    : option (list A * list A) :=
  '(tr, val) ← split_indices (length ratings) st;
  Some (iloc ratings tr, iloc ratings val).
End cell_3.

End split.

(** ** TensorFlow 1.12: tensors, the graph and its collections *)

Module tensorflow.

(** Floating-point numbers and the scalar kernels the graph uses.  The
    development assumes nothing about them. *)
Class FloatOps (F : Type) := {
  f0 : F;                       (* 0.0 *)
  fadd : F → F → F;
  fmul : F → F → F;
  fdiv : F → F → F;
  fmax : F → F → F;
  fltb : F → F → bool;          (* a < b *)
  ffloor : F → F;
  of_Q : Q → F;                 (* a literal of the script *)
  of_nat : nat → F;             (* an integer count as a float *)
  (* softmax cross-entropy of one row of logits against its label *)
  softmax_xent : list F → nat → F
}.

Section graph.
Context {F : Type} `{FloatOps F}.

(** The value of a variable: a vector, a matrix or a rank-3 kernel. *)
Inductive Tensor :=
  | T1 (v : list F)
  | T2 (m : list (list F))
  | T3 (k : list (list (list F))).

Definition entries (t : Tensor) : list F :=
  match t with
  | T1 v => v
  | T2 m => concat m
  | T3 k => concat (concat k)
  end.

(** Variable values by name, as a session holds them. *)
Definition read1 (st : gmap string Tensor) (name : string) : list F :=
  match st !! name with Some (T1 v) => v | _ => [] end.
Definition read2 (st : gmap string Tensor) (name : string) : list (list F) :=
  match st !! name with Some (T2 m) => m | _ => [] end.
Definition read3 (st : gmap string Tensor) (name : string) : list (list (list F)) :=
  match st !! name with Some (T3 k) => k | _ => [] end.

(** The graph collections the script relies on: every variable with its
    initial value, the names of the trainable ones, and the
    regularization losses (scalars computed from the variables). *)
Record Graph := {
  GLOBAL_VARIABLES : list (string * Tensor);
  TRAINABLE_VARIABLES : list string;
  REGULARIZATION_LOSSES : list (gmap string Tensor → F)
}.

Definition empty_graph : Graph :=
  {| GLOBAL_VARIABLES := []; TRAINABLE_VARIABLES := []; REGULARIZATION_LOSSES := [] |}.

(** Creation of a variable: it joins [GLOBAL_VARIABLES], and
    [TRAINABLE_VARIABLES] when [trainable]. *)
Definition new_variable (name : string) (init : Tensor) (trainable : bool)
    (g : Graph) : Graph :=
  {| GLOBAL_VARIABLES := GLOBAL_VARIABLES g ++ [(name, init)];
     TRAINABLE_VARIABLES :=
       if trainable then TRAINABLE_VARIABLES g ++ [name] else TRAINABLE_VARIABLES g;
     REGULARIZATION_LOSSES := REGULARIZATION_LOSSES g |}.

(** [tf.add_to_collection(tf.GraphKeys.REGULARIZATION_LOSSES, loss)]. *)
Definition add_to_collection (loss : gmap string Tensor → F) (g : Graph) : Graph :=
  {| GLOBAL_VARIABLES := GLOBAL_VARIABLES g;
     TRAINABLE_VARIABLES := TRAINABLE_VARIABLES g;
     REGULARIZATION_LOSSES := REGULARIZATION_LOSSES g ++ [loss] |}.

(** [tf.get_variable(name, initializer, regularizer, trainable)] inside
    [tf.variable_scope(scope)]: the one place where a regularizer's loss
    joins the graph's [REGULARIZATION_LOSSES]. *)
Definition get_variable (scope name : string) (initializer : Tensor)
    (regularizer : option (Tensor → F)) (trainable : bool) (g : Graph)
    : string * Graph :=
  let full := (scope +:+ "/" +:+ name)%string in
  let g' := new_variable full initializer trainable g in
  (full,
   match regularizer with
   | None => g'
   | Some reg =>
       add_to_collection
         (λ st, match st !! full with Some w => reg w | None => f0 end) g'
   end).

(** One [session.run]: the variable values, the batch the iterator
    delivers, the fed [is_training] flag and the uniform noise the
    dropout kernel draws.  A graph tensor is a function of it. *)
Record Run := {
  variables : gmap string Tensor;
  X : list (list nat);
  y : list nat;
  is_training : bool;
  noise : list (list F)
}.

Definition with_variables (st : gmap string Tensor) (r : Run) : Run :=
  {| variables := st; X := X r; y := y r; is_training := is_training r;
     noise := noise r |}.

(** *** Kernels *)

Definition relu (a : F) : F := fmax a f0.
Definition square (a : F) : F := fmul a a.

(** [tf.reduce_sum] of a list of scalars. *)
Definition reduce_sum (l : list F) : F := foldl fadd f0 l.

Definition vadd (a b : list F) : list F := zip_with fadd a b.

(** The sum of vectors of length [n]. *)
Definition vsum (n : nat) (vs : list (list F)) : list F :=
  foldl vadd (replicate n f0) vs.

(** A row vector times a matrix with [n] columns. *)
Definition vecmat (n : nat) (a : list F) (W : list (list F)) : list F :=
  vsum n (zip_with (λ ai row, fmul ai <$> row) a W).

(** [tf.nn.embedding_lookup(params, ids)]: the row of [params] at every
    id.  An id outside the table gives an empty row, which the
    convolution below treats as a row of zeros. *)
Definition embedding_lookup (params : list (list F)) (ids : list (list nat))
    : list (list (list F)) :=
  (λ sen : list nat, (λ i, default [] (params !! i)) <$> sen) <$> ids.

(** One output position of a convolution: the window (width x input
    channels) against the kernel (width x input channels x filters),
    plus the bias, through the activation. *)
Definition conv_at (filters : nat) (kernel : list (list (list F))) (bias : list F)
    (window : list (list F)) : list F :=
  relu <$> vadd (vsum filters (zip_with (vecmat filters) window kernel)) bias.

(** [Conv1D] with [padding='valid'] and stride 1 on one example: one
    output per window position. *)
Definition conv1d (kernel_size filters : nat) (kernel : list (list (list F)))
    (bias : list F) (x : list (list F)) : list (list F) :=
  (λ t, conv_at filters kernel bias (take kernel_size (drop t x)))
    <$> seq 0 (length x + 1 - kernel_size).

(** [a + b] on tensors of one shape, [tf.reduce_max(_, axis=1)] and
    [tf.concat(_, axis=-1)], per example of the batch. *)
Definition tadd (a b : list (list (list F))) : list (list (list F)) :=
  zip_with (zip_with vadd) a b.

Definition max_over_time (x : list (list F)) : list F :=
  match x with
  | [] => []
  | v :: vs => foldl (zip_with fmax) v vs
  end.

Definition reduce_max_axis1 (x : list (list (list F))) : list (list F) :=
  max_over_time <$> x.

Definition concat_last3 (a b c : list (list F)) : list (list F) :=
  zip_with app (zip_with app a b) c.

(** [tf.nn.dropout(x, keep_prob)]: [floor(keep_prob + uniform)] is 0 or
    1; the kept entries are divided by [keep_prob]. *)
Definition nn_dropout (keep_prob : F) (u x : list (list F)) : list (list F) :=
  zip_with (zip_with (λ ui xi, fmul (fdiv xi keep_prob) (ffloor (fadd keep_prob ui)))) u x.

(** [tf.losses.sparse_softmax_cross_entropy(labels, logits)]: the
    per-example losses summed and divided by their number (0 for an
    empty batch). *)
Definition sparse_softmax_cross_entropy (labels : list nat) (logits : list (list F)) : F :=
  let losses := zip_with softmax_xent logits labels in
  if decide (length losses = 0) then f0
  else fdiv (reduce_sum losses) (of_nat (length losses)).

(** [tf.argmax(_, axis=-1)] on one row: the first position of the
    largest entry. *)
Fixpoint argmax_from (best : F) (best_i i : nat) (row : list F) : nat :=
  match row with
  | [] => best_i
  | a :: row' =>
      if fltb best a then argmax_from a i (S i) row'
      else argmax_from best best_i (S i) row'
  end.

Definition argmax (row : list F) : nat :=
  match row with
  | [] => 0
  | a :: row' => argmax_from a 0 1 row'
  end.

(** *** Keras layers *)

(** [keras.regularizers.l2(l)]: [l * reduce_sum(square(w))]. *)
Definition l2 (l : Q) (w : Tensor) : F :=
  fmul (of_Q l) (reduce_sum (square <$> entries w)).

(** The two families of layer classes of TensorFlow 1.12: the Keras
    layers, and the legacy [tf.layers] that subclass them. *)
Inductive api := keras_layers | tf_layers.

(** The state every layer carries: its family, its name, whether its
    weights exist, and its own list of losses. *)
Record Layer := {
  layer_api : api;
  layer_name : string;
  built : bool;
  losses : list (gmap string Tensor → F)
}.

Definition new_layer (a : api) (name : string) : Layer :=
  {| layer_api := a; layer_name := name; built := false; losses := [] |}.

Definition set_built (l : Layer) : Layer :=
  {| layer_api := layer_api l; layer_name := layer_name l; built := true;
     losses := losses l |}.

(** [Layer.add_loss]: the loss is appended to the layer's [losses]; the
    override of the legacy [tf.layers.Layer] also appends it to the
    graph's [REGULARIZATION_LOSSES], a Keras layer does not. *)
Definition add_loss (loss : gmap string Tensor → F) (l : Layer) (g : Graph)
    : Layer * Graph :=
  ({| layer_api := layer_api l; layer_name := layer_name l; built := built l;
      losses := losses l ++ [loss] |},
   match layer_api l with
   | keras_layers => g
   | tf_layers => add_to_collection loss g
   end).

(** [Layer.add_weight(name, initializer, regularizer)]: a trainable
    variable under the layer's name scope; a regularizer becomes a loss
    of the layer on the variable's value. *)
Definition add_weight (name : string) (initializer : Tensor)
    (regularizer : option (Tensor → F)) (l : Layer) (g : Graph)
    : string * Layer * Graph :=
  let full := (layer_name l +:+ "/" +:+ name)%string in
  let g' := new_variable full initializer true g in
  match regularizer with
  | None => (full, l, g')
  | Some reg =>
      let '(l', g'') :=
        add_loss (λ st, match st !! full with Some w => reg w | None => f0 end) l g' in
      (full, l', g'')
  end.

(** The draws of the random initializers, by shape. *)
Variable he_uniform : nat → nat → nat → list (list (list F)).
Variable glorot_uniform : nat → nat → list (list F).

(** [keras.layers.Conv1D(filters, kernel_size, activation=relu,
    kernel_initializer='he_uniform', padding='valid')]. *)
Record Conv1D := {
  conv_layer : Layer;
  filters : nat;
  kernel_size : nat;
  conv_kernel : string;
  conv_bias : string
}.

Definition new_Conv1D (name : string) (filters kernel_size : nat) : Conv1D :=
  {| conv_layer := new_layer keras_layers name; filters := filters; kernel_size := kernel_size;
     conv_kernel := ""; conv_bias := "" |}.

(** [Conv1D.build]: the kernel and the (zero) bias. *)
Definition Conv1D_build (c : Conv1D) (input_dim : nat) (g : Graph) : Conv1D * Graph :=
  let '(kernel, l, g) :=
    add_weight "kernel" (T3 (he_uniform (kernel_size c) input_dim (filters c)))
               None (conv_layer c) g in
  let '(bias, l, g) := add_weight "bias" (T1 (replicate (filters c) f0)) None l g in
  ({| conv_layer := set_built l; filters := filters c; kernel_size := kernel_size c;
      conv_kernel := kernel; conv_bias := bias |}, g).

(** [layer(inputs)]: the first call builds the weights, every call
    applies the layer's own weights to its input. *)
Definition Conv1D_call (c : Conv1D) (inputs : Run → list (list (list F)))
    (input_dim : nat) (g : Graph)
    : Conv1D * (Run → list (list (list F))) * Graph :=
  let '(c, g) := if built (conv_layer c) then (c, g) else Conv1D_build c input_dim g in
  (c,
   λ r, conv1d (kernel_size c) (filters c)
               (read3 (variables r) (conv_kernel c))
               (read1 (variables r) (conv_bias c)) <$> inputs r,
   g).

(** [keras.layers.Dense(units, kernel_regularizer)]. *)
Record Dense := {
  dense_layer : Layer;
  units : nat;
  kernel_regularizer : option (Tensor → F);
  dense_kernel : string;
  dense_bias : string
}.

Definition new_Dense (name : string) (units : nat)
    (kernel_regularizer : option (Tensor → F)) : Dense :=
  {| dense_layer := new_layer keras_layers name; units := units;
     kernel_regularizer := kernel_regularizer;
     dense_kernel := ""; dense_bias := "" |}.

Definition Dense_build (d : Dense) (input_dim : nat) (g : Graph) : Dense * Graph :=
  let '(kernel, l, g) :=
    add_weight "kernel" (T2 (glorot_uniform input_dim (units d)))
               (kernel_regularizer d) (dense_layer d) g in
  let '(bias, l, g) := add_weight "bias" (T1 (replicate (units d) f0)) None l g in
  ({| dense_layer := set_built l; units := units d;
      kernel_regularizer := kernel_regularizer d;
      dense_kernel := kernel; dense_bias := bias |}, g).

Definition Dense_call (d : Dense) (inputs : Run → list (list F))
    (input_dim : nat) (g : Graph) : Dense * (Run → list (list F)) * Graph :=
  let '(d, g) := if built (dense_layer d) then (d, g) else Dense_build d input_dim g in
  (d,
   λ r, (λ row, vadd (vecmat (units d) row (read2 (variables r) (dense_kernel d)))
                     (read1 (variables r) (dense_bias d))) <$> inputs r,
   g).

(** [keras.layers.Dropout(rate)(inputs, training)]: the dropped inputs
    when [training] holds, the inputs themselves otherwise. *)
Definition Dropout_call (rate : Q) (inputs : Run → list (list F))
    (training : Run → bool) : Run → list (list F) :=
  λ r, if training r
       then nn_dropout (of_Q (1 - rate)) (noise r) (inputs r)
       else inputs r.
End graph.

Global Arguments Tensor : clear implicits.
Global Arguments Graph : clear implicits.
Global Arguments Run : clear implicits.
Global Arguments Layer : clear implicits.
Global Arguments Conv1D : clear implicits.
Global Arguments Dense : clear implicits.

End tensorflow.

(** ** Cell 9: the [MorphConv] class *)

Module morphconv.
Import tensorflow.

Section model.
Context {F : Type} `{FloatOps F}.
Variable he_uniform : nat → nat → nat → list (list (list F)).
Variable glorot_uniform : nat → nat → list (list F).

Local Abbreviation Tensor := (Tensor F).
Local Abbreviation Graph := (Graph F).
Local Abbreviation Run := (Run F).
Local Abbreviation Conv1D := (Conv1D F).
Local Abbreviation Dense := (Dense F).

(** What [MorphConv.__init__] leaves behind: the graph collections, the
    layer objects, and every tensor the constructor names. *)
Record MorphConv := {
  graph : Graph;
  static_embed : string;
  non_static_embed : string;
  tri_gram : Conv1D;
  tetra_gram : Conv1D;
  penta_gram : Conv1D;
  output_dense : Dense;
  static_batch : Run → list (list (list F));
  non_static_batch : Run → list (list (list F));
  static_3 : Run → list (list (list F));
  non_static_3 : Run → list (list (list F));
  static_4 : Run → list (list (list F));
  non_static_4 : Run → list (list (list F));
  static_5 : Run → list (list (list F));
  non_static_5 : Run → list (list (list F));
  fmap_3 : Run → list (list F);
  fmap_4 : Run → list (list F);
  fmap_5 : Run → list (list F);
  flattened : Run → list (list F);
  score : Run → list (list F);          (* the Dense output *)
  self_score : Run → list (list F);     (* [self.__score], after Dropout *)
  ce_loss : Run → F;
  reg_term : Run → F;
  total_loss : Run → F;
  prediction : Run → list nat
}.

(** [embedding.shape[1]]. *)
Definition shape_1 (embedding : list (list F)) : nat :=
  match embedding with
  | [] => 0
  | row :: _ => length row
  end.

(** [MorphConv.__init__(X, y, n_of_classes, embedding)] on a fresh
    graph; [X] and [y] are the two outputs of [iterator.get_next()]. *)
Definition MorphConv_init (n_of_classes : nat) (embedding : list (list F)) : MorphConv :=
  let g := empty_graph in
  (* embedding_layer *)
  let '(static_embed, g) :=
    get_variable "embedding_layer" "static" (T2 embedding) None false g in
  let '(non_static_embed, g) :=
    get_variable "embedding_layer" "non_static" (T2 embedding) None true g in
  let static_batch : Run → list (list (list F)) :=
    λ r, embedding_lookup (read2 (variables r) static_embed) (X r) in
  let non_static_batch : Run → list (list (list F)) :=
    λ r, embedding_lookup (read2 (variables r) non_static_embed) (X r) in
  let dim := shape_1 embedding in
  (* convoluion_layer *)
  let tri_gram := new_Conv1D "convoluion_layer/tri_gram/conv1d" 100 3 in
  let '(tri_gram, static_3, g) :=
    Conv1D_call he_uniform tri_gram static_batch dim g in
  let '(tri_gram, non_static_3, g) :=
    Conv1D_call he_uniform tri_gram non_static_batch dim g in
  let tetra_gram := new_Conv1D "convoluion_layer/tetra_gram/conv1d_1" 100 4 in
  let '(tetra_gram, static_4, g) :=
    Conv1D_call he_uniform tetra_gram static_batch dim g in
  let '(tetra_gram, non_static_4, g) :=
    Conv1D_call he_uniform tetra_gram non_static_batch dim g in
  let penta_gram := new_Conv1D "convoluion_layer/penta_gram/conv1d_2" 100 5 in
  let '(penta_gram, static_5, g) :=
    Conv1D_call he_uniform penta_gram static_batch dim g in
  let '(penta_gram, non_static_5, g) :=
    Conv1D_call he_uniform penta_gram non_static_batch dim g in
  let fmap_3 : Run → list (list F) :=
    λ r, reduce_max_axis1 (tadd (static_3 r) (non_static_3 r)) in
  let fmap_4 : Run → list (list F) :=
    λ r, reduce_max_axis1 (tadd (static_4 r) (non_static_4 r)) in
  let fmap_5 : Run → list (list F) :=
    λ r, reduce_max_axis1 (tadd (static_5 r) (non_static_5 r)) in
  (* output_layer *)
  let flattened : Run → list (list F) :=
    λ r, concat_last3 (fmap_3 r) (fmap_4 r) (fmap_5 r) in
  let dense := new_Dense "output_layer/dense" n_of_classes (Some (l2 (7 # 10))) in
  let '(dense, score, g) :=
    Dense_call glorot_uniform dense flattened
               (filters tri_gram + filters tetra_gram + filters penta_gram) g in
  let self_score := Dropout_call (1 # 2) score is_training in
  (* loss *)
  let ce_loss : Run → F :=
    λ r, sparse_softmax_cross_entropy (y r) (self_score r) in
  let collection := REGULARIZATION_LOSSES g in
  let reg_term : Run → F :=
    λ r, reduce_sum ((λ loss, loss (variables r)) <$> collection) in
  let total_loss : Run → F := λ r, fadd (ce_loss r) (reg_term r) in
  (* prediction *)
  let prediction : Run → list nat := λ r, argmax <$> self_score r in
  {| graph := g;
     static_embed := static_embed; non_static_embed := non_static_embed;
     tri_gram := tri_gram; tetra_gram := tetra_gram; penta_gram := penta_gram;
     output_dense := dense;
     static_batch := static_batch; non_static_batch := non_static_batch;
     static_3 := static_3; non_static_3 := non_static_3;
     static_4 := static_4; non_static_4 := non_static_4;
     static_5 := static_5; non_static_5 := non_static_5;
     fmap_3 := fmap_3; fmap_4 := fmap_4; fmap_5 := fmap_5;
     flattened := flattened; score := score; self_score := self_score;
     ce_loss := ce_loss; reg_term := reg_term; total_loss := total_loss;
     prediction := prediction |}.

(** [MorphConv.predict(sess, x_data, is_training)]: the prediction tensor
    with [x_data] fed for the input rows; [st] holds the session's
    variables and [u] the noise a dropout kernel would draw. *)
Definition predict (m : MorphConv) (st : gmap string Tensor) (x_data : list (list nat))
    (is_training : bool) (u : list (list F)) : list nat :=
  prediction m {| variables := st; X := x_data; y := [];
                  is_training := is_training; noise := u |}.

(** [tf.global_variables_initializer()]: every variable takes its
    initial value. *)
Definition global_variables_initializer (g : Graph) : gmap string Tensor :=
  list_to_map (GLOBAL_VARIABLES g).

(** *** Cell 15: the optimizer *)

(** The slots of the Adam optimizer, the gradient of a loss with
    respect to one variable, and Adam's new value for a variable. *)
Context {OptState : Type}.
Variable gradients : (gmap string Tensor → F) → gmap string Tensor → string → Tensor.
Variable adam_update : OptState → string → Tensor → Tensor → Tensor.
Variable adam_next : OptState → OptState.

(** [opt.minimize(loss)]: [var_list] defaults to the graph's
    [TRAINABLE_VARIABLES]; one run of the returned op gives every
    variable of that list its Adam update and leaves the others. *)
Definition minimize (g : Graph) (loss : Run → F)
    : Run → OptState → gmap string Tensor * OptState :=
  let var_list := TRAINABLE_VARIABLES g in
  λ r opt,
    (map_imap
       (λ name value,
          Some (if bool_decide (name ∈ var_list)
                then adam_update opt name value
                       (gradients (λ st, loss (with_variables st r)) (variables r) name)
                else value))
       (variables r),
     adam_next opt).

Definition training_op (m : MorphConv) : Run → OptState → gmap string Tensor * OptState :=
  minimize (graph m) (total_loss m).

(** *** The convolution stage as the specification words it

    For one example: a filter bank applied with the same weights to the
    frozen and to the trainable embedding of the example, the two
    outputs summed and reduced by the maximum over the positions; the
    vectors of the three banks concatenated. *)
Definition bank_features (c : Conv1D) (st : gmap string Tensor)
    (frozen trainable : list (list F)) : list F :=
  let conv := conv1d (kernel_size c) (filters c)
                     (read3 st (conv_kernel c)) (read1 st (conv_bias c)) in
  max_over_time (zip_with vadd (conv frozen) (conv trainable)).

Definition features_spec (m : MorphConv) (st : gmap string Tensor)
    (ids : list nat) : list F :=
  let frozen := (λ i, default [] (read2 st (static_embed m) !! i)) <$> ids in
  let trainable := (λ i, default [] (read2 st (non_static_embed m) !! i)) <$> ids in
  bank_features (tri_gram m) st frozen trainable ++
  bank_features (tetra_gram m) st frozen trainable ++
  bank_features (penta_gram m) st frozen trainable.

(** A variable store whose convolution weights have the shapes
    [Conv1D.build] gave them: every kernel entry has one weight per
    filter, and so has the bias. *)
Definition bank_shaped (c : Conv1D) (st : gmap string Tensor) : Prop :=
  Forall (Forall (λ w, length w = filters c)) (read3 st (conv_kernel c)) ∧
  length (read1 st (conv_bias c)) = filters c.
End model.

End morphconv.

(** ** Cells 10 to 17: datasets, the session and the training loop *)

Module training.
Import tensorflow morphconv.

(** A batch: the rows and the labels [iterator.get_next()] returns. *)
Definition Batch : Type := list (list nat) * list nat.

(** [tf.data.Dataset.from_tensor_slices((X, y))]: one element per row. *)
Definition from_tensor_slices (X : list (list nat)) (y : list nat)
    : list (list nat * nat) :=
  zip X y.

(** [dataset.batch(batch_size)]: consecutive groups of [batch_size]
    elements, the last one possibly shorter.  There are at most
    [length l] groups, which bounds the recursion. *)
Fixpoint batch_from {A} (n : nat) (batch_size : nat) (l : list A) : list (list A) :=
  match n with
  | 0 => []
  | S n' =>
      match l with
      | [] => []
      | _ => take batch_size l :: batch_from n' batch_size (drop batch_size l)
      end
  end.

Definition batch (batch_size : nat) (l : list (list nat * nat)) : list Batch :=
  (λ b : list (list nat * nat), (b.*1, b.*2)) <$> batch_from (length l) batch_size l.

(** What a [sess.run] yields: the fetched value, or the iterator's
    end-of-data error. *)
Inductive Fetched (A : Type) :=
  | OutOfRangeError
  | Value (a : A).
Global Arguments OutOfRangeError {A}.
Global Arguments Value {A} a.

Inductive Exception := ZeroDivisionError.

Section loop.
Context {F : Type} `{FloatOps F}.
Context {OptState RandomState : Type}.
Variable gradients : (gmap string (Tensor F) → F) → gmap string (Tensor F) → string → Tensor F.
Variable adam_update : OptState → string → Tensor F → Tensor F → Tensor F.
Variable adam_next : OptState → OptState.
(** [dataset.shuffle(buffer_size)]: a fresh order at every
    initialization of the iterator. *)
Variable shuffle : list (list nat * nat) → RandomState → list (list nat * nat) * RandomState.
(** The uniform draws of the dropout kernel, by shape. *)
Variable random_uniform : nat → nat → RandomState → list (list F) * RandomState.

Definition batch_size : nat := 100.
Definition epochs : nat := 5.

(** The session: variable values, optimizer slots, the generator, and
    what each iterator has left to deliver. *)
Record Session := {
  sess_variables : gmap string (Tensor F);
  sess_opt : OptState;
  sess_rng : RandomState;
  tr_iterator : list Batch;
  val_iterator : list Batch
}.

(** The values of the [handle] placeholder. *)
Inductive handle := tr_handle | val_handle.

Variable m : MorphConv (F := F).
Variable n_of_classes : nat.
(** The encoded splits and labels of cells 5 and 8. *)
Variables (X_tr X_val : list (list nat)) (y_tr y_val : list nat).

(** Cell 16: a new session in which [tf.global_variables_initializer()]
    has run; no iterator has been initialized. *)
Definition new_session (opt : OptState) (rng : RandomState) : Session :=
  {| sess_variables := global_variables_initializer (graph m);
     sess_opt := opt; sess_rng := rng; tr_iterator := []; val_iterator := [] |}.

(** [sess.run(tr_iterator.initializer)]: the training set reshuffled
    and batched. *)
Definition run_tr_initializer (s : Session) : Session :=
  let '(data, rng) := shuffle (from_tensor_slices X_tr y_tr) (sess_rng s) in
  {| sess_variables := sess_variables s; sess_opt := sess_opt s; sess_rng := rng;
     tr_iterator := batch batch_size data; val_iterator := val_iterator s |}.

(** [sess.run(val_iterator.initializer)]. *)
Definition run_val_initializer (s : Session) : Session :=
  {| sess_variables := sess_variables s; sess_opt := sess_opt s;
     sess_rng := sess_rng s; tr_iterator := tr_iterator s;
     val_iterator := batch batch_size (from_tensor_slices X_val y_val) |}.

(** [iterator.get_next()] through the fed handle. *)
Definition get_next (h : handle) (s : Session) : option (Batch * Session) :=
  match h with
  | tr_handle =>
      match tr_iterator s with
      | [] => None
      | b :: rest =>
          Some (b, {| sess_variables := sess_variables s; sess_opt := sess_opt s;
                      sess_rng := sess_rng s; tr_iterator := rest;
                      val_iterator := val_iterator s |})
      end
  | val_handle =>
      match val_iterator s with
      | [] => None
      | b :: rest =>
          Some (b, {| sess_variables := sess_variables s; sess_opt := sess_opt s;
                      sess_rng := sess_rng s; tr_iterator := tr_iterator s;
                      val_iterator := rest |})
      end
  end.

(** The work of one training run on the batch it received: the loss of
    the batch under the current variables (dropout on), then the
    optimizer's update. *)
Definition train_on (b : Batch) (s : Session) : F * Session :=
  let '(u, rng) := random_uniform (length b.1) n_of_classes (sess_rng s) in
  let r := {| variables := sess_variables s; X := b.1; y := b.2;
              is_training := true; noise := u |} in
  let '(vars, opt) := training_op gradients adam_update adam_next m r (sess_opt s) in
  (total_loss m r,
   {| sess_variables := vars; sess_opt := opt; sess_rng := rng;
      tr_iterator := tr_iterator s; val_iterator := val_iterator s |}).

(** The work of one validation run: the loss only, dropout off. *)
Definition validate_on (b : Batch) (s : Session) : F * Session :=
  let r := {| variables := sess_variables s; X := b.1; y := b.2;
              is_training := false; noise := [] |} in
  (total_loss m r, s).

(** [sess.run([training_op, morph_conv.total_loss], {handle: tr_handle,
    is_training: True})]. *)
Definition run_training (s : Session) : Fetched F * Session :=
  match get_next tr_handle s with
  | None => (OutOfRangeError, s)
  | Some (b, s') => let '(loss, s'') := train_on b s' in (Value loss, s'')
  end.

(** [sess.run(morph_conv.total_loss, {handle: val_handle,
    is_training: False})]. *)
Definition run_validation (s : Session) : Fetched F * Session :=
  match get_next val_handle s with
  | None => (OutOfRangeError, s)
  | Some (b, s') => let '(loss, s'') := validate_on b s' in (Value loss, s'')
  end.

(** [try: while True: ... except tf.errors.OutOfRangeError: pass]: the
    loop body runs until a run raises; [fuel] bounds the number of
    runs, and [None] means the loop is still going. *)
Fixpoint while_true (run : Session → Fetched F * Session) (fuel : nat)
    (s : Session) (avg_loss : F) (step : nat) : option (Session * F * nat) :=
  match fuel with
  | 0 => None
  | S fuel' =>
      match run s with
      | (OutOfRangeError, s') => Some (s', avg_loss, step)
      | (Value loss, s') => while_true run fuel' s' (fadd avg_loss loss) (S step)
      end
  end.

(** [avg_loss /= step]: a zero step count divides the integer 0 by the
    integer 0. *)
Definition divide (avg_loss : F) (step : nat) : Exception + F :=
  if decide (step = 0) then inl ZeroDivisionError
  else inr (fdiv avg_loss (of_nat step)).

(** The body of [for epoch in range(epochs)]: the training phase, the
    validation phase, then the two averages. *)
Definition epoch (fuel : nat) (s : Session)
    : option (Session * (Exception + F * F)) :=
  '(s, avg_tr_loss, tr_step) ←
     while_true run_training fuel (run_tr_initializer s) (of_nat 0) 0;
  '(s, avg_val_loss, val_step) ←
     while_true run_validation fuel (run_val_initializer s) (of_nat 0) 0;
  match divide avg_tr_loss tr_step with
  | inl e => Some (s, inl e)
  | inr avg_tr_loss =>
      match divide avg_val_loss val_step with
      | inl e => Some (s, inl e)
      | inr avg_val_loss => Some (s, inr (avg_tr_loss, avg_val_loss))
      end
  end.

(** The whole loop: the two loss histories after [n] epochs, or the
    exception that stopped it. *)
Fixpoint run_epochs (n fuel : nat) (s : Session) (tr_loss_hist val_loss_hist : list F)
    : option (Session * (Exception + list F * list F)) :=
  match n with
  | 0 => Some (s, inr (tr_loss_hist, val_loss_hist))
  | S n' =>
      '(s', res) ← epoch fuel s;
      match res with
      | inl e => Some (s', inl e)
      | inr (avg_tr_loss, avg_val_loss) =>
          run_epochs n' fuel s' (tr_loss_hist ++ [avg_tr_loss])
                     (val_loss_hist ++ [avg_val_loss])
      end
  end.

(** *** The phases as the specification words them

    One pass over the batches an iterator holds, in order, each batch
    once: the per-batch losses and the session after the last batch. *)
Fixpoint losses_tr (bs : list Batch) (s : Session) : list F * Session :=
  match bs with
  | [] => ([], s)
  | b :: bs' =>
      let '(loss, s') :=
        train_on b {| sess_variables := sess_variables s; sess_opt := sess_opt s;
                      sess_rng := sess_rng s; tr_iterator := bs';
                      val_iterator := val_iterator s |} in
      let '(ls, s'') := losses_tr bs' s' in
      (loss :: ls, s'')
  end.

Fixpoint losses_val (bs : list Batch) (s : Session) : list F * Session :=
  match bs with
  | [] => ([], s)
  | b :: bs' =>
      let '(loss, s') :=
        validate_on b {| sess_variables := sess_variables s; sess_opt := sess_opt s;
                         sess_rng := sess_rng s; tr_iterator := tr_iterator s;
                         val_iterator := bs' |} in
      let '(ls, s'') := losses_val bs' s' in
      (loss :: ls, s'')
  end.

(** The mean as the specification words it: the sum of the per-batch
    losses over their number. *)
Definition mean_loss (ls : list F) : F :=
  fdiv (foldl fadd (of_nat 0) ls) (of_nat (length ls)).
End loop.

End training.

(** ** Notions used to state the properties *)

Module invariants.
Import gluonnlp.

(** [tokens.count(token)]. *)
Definition occurrences (token : string) (tokens : list string) : nat :=
  length (filter (λ t, t = token) tokens).

(** The two halves of a vocabulary agree: the dictionary holds exactly
    the pairs (token, position) of [idx_to_token], no token is listed
    twice, and a missing key reads as [UNK_IDX]. *)
Record wf_vocab (v : Vocab) : Prop := {
  wf_default : dict_default (token_to_idx v) = UNK_IDX;
  wf_items : ∀ token i,
    dict_items (token_to_idx v) !! token = Some i ↔ idx_to_token v !! i = Some token;
  wf_nodup : NoDup (idx_to_token v)
}.

(** The tokens a counter holds often enough, other than the special
    ones, in the order of [token_freqs]. *)
Definition frequent_tokens (counter : gmap string nat) (min_freq : nat) : list string :=
  (filter (λ p : string * nat,
             min_freq ≤ p.2 ∧ p.1 ≠ "<pad>"%string ∧ p.1 ≠ "<unk>"%string)
          (token_freqs counter)).*1.
End invariants.

(** ** Concrete inputs *)

Module examples.
Import tensorflow morphconv training.

(** A tokenizer: one token per character. *)
Definition char_tokens (s : string) : list string :=
  (λ c, String c EmptyString) <$> String.list_ascii_of_string s.

Definition long_document : string := "0123456789012345678901234567890123456789".

(** A training split of one tokenised review: "good" fifteen times, then
    "bad" once. *)
Definition demo_sentences : list (list string) :=
  [replicate 15 "good"%string ++ ["bad"%string]].

(** A small linear congruential generator for [rk_interval]. *)
Definition lcg (max : nat) (st : nat) : nat * nat :=
  ((7 * st + 3) `mod` S max, (7 * st + 3) `mod` 101).

(** Exact rational arithmetic in place of floating point; the
    cross-entropy kernel is replaced by [max(row) - row[label]]. *)
#[export] Instance QF : FloatOps Q := {|
  f0 := 0%Q;
  fadd := Qplus;
  fmul := Qmult;
  fdiv := Qdiv;
  fmax := Qmax;
  fltb := λ a b, negb (Qle_bool b a);
  ffloor := λ a, inject_Z (Qfloor a);
  of_Q := λ q, q;
  of_nat := λ n, inject_Z (Z.of_nat n);
  softmax_xent := λ row label, (foldr Qmax 0 row - default 0 (row !! label))%Q
|}.

(** Initializers that draw the weight 1 everywhere, a one-dimensional
    embedding of three tokens, and the model built from them. *)
Definition he_ones (kernel_size input_dim filters : nat) : list (list (list Q)) :=
  replicate kernel_size (replicate input_dim (replicate filters 1%Q)).
Definition glorot_ones (input_dim units : nat) : list (list Q) :=
  replicate input_dim (replicate units 1%Q).
Definition demo_embedding : list (list Q) := [[0%Q]; [0%Q]; [1%Q]].
Definition demo_model : MorphConv := MorphConv_init he_ones glorot_ones 2 demo_embedding.
Definition demo_ids : list nat := [2; 2; 0; 2; 2; 1; 1].
Definition demo_run : Run Q :=
  {| variables := global_variables_initializer (graph demo_model);
     X := [demo_ids]; y := [1]; is_training := false; noise := [] |}.

(** A session on that model, with an optimizer that changes nothing, a
    shuffle that reverses and a constant noise. *)
Definition demo_session : Session (F := Q) (OptState := unit) (RandomState := unit) :=
  {| sess_variables := global_variables_initializer (graph demo_model);
     sess_opt := (); sess_rng := (); tr_iterator := []; val_iterator := [] |}.
Definition demo_gradients (_ : gmap string (Tensor Q) → Q) (_ : gmap string (Tensor Q))
    (_ : string) : Tensor Q := T1 [].
Definition demo_adam (_ : unit) (_ : string) (value _ : Tensor Q) : Tensor Q := value.
Definition demo_shuffle (l : list (list nat * nat)) (_ : unit)
    : list (list nat * nat) * unit :=
  (reverse l, ()).
Definition demo_uniform (rows cols : nat) (_ : unit) : list (list Q) * unit :=
  (replicate rows (replicate cols (1 # 2)%Q), ()).
Definition demo_X_tr : list (list nat) := [replicate 30 2; replicate 30 1].
Definition demo_y_tr : list nat := [1; 0].
Definition demo_X_val : list (list nat) := [replicate 30 0].
Definition demo_y_val : list nat := [1].
End examples.

(** ** Cells 10 and 18 to 20: the step count and the test pass *)

Module evaluation.
Import tensorflow morphconv training.

(** Cell 10: [total_step = int(X_tr.shape[0] / batch_size)], the quotient
    of the number of training rows by the batch size (the float quotient
    of two integers below [2^52] truncates to the integer quotient). *)
Definition total_step (X_tr : list (list nat)) : nat := length X_tr / batch_size.

Section test.
Context {F : Type} `{FloatOps F}.
Context {OptState RandomState : Type}.
Variable m : MorphConv (F := F).

Local Abbreviation Session :=
  (Session (F := F) (OptState := OptState) (RandomState := RandomState)).

(** Cells 18 and 20: [sess.run(tst_iterator.initializer)] on the batched
    test set (no shuffle). *)
Definition run_tst_initializer (X_tst : list (list nat)) (y_tst : list nat) : list Batch :=
  batch batch_size (from_tensor_slices X_tst y_tst).

(** [sess.run(morph_conv.prediction, {handle: tst_handle,
    is_training: False})] with the test iterator's remaining batches: the
    predictions of the next batch, or the end-of-data error. *)
Definition run_prediction (s : Session) (tst_iterator : list Batch)
    : Fetched (list nat) * list Batch :=
  match tst_iterator with
  | [] => (OutOfRangeError, [])
  | b :: rest =>
      (Value (prediction m {| variables := sess_variables s; X := b.1; y := b.2;
                              is_training := false; noise := [] |}),
       rest)
  end.

(** Cell 20: [y_tst_hat = np.append(y_tst_hat, y_tst_tmp)] until the
    iterator raises; [None] means the loop is still going. *)
Fixpoint test_loop (fuel : nat) (s : Session) (tst_iterator : list Batch)
    (y_tst_hat : list nat) : option (list nat) :=
  match fuel with
  | 0 => None
  | S fuel' =>
      match run_prediction s tst_iterator with
      | (OutOfRangeError, _) => Some y_tst_hat
      | (Value y_tst_tmp, rest) => test_loop fuel' s rest (y_tst_hat ++ y_tst_tmp)
      end
  end.

Definition test_pass (fuel : nat) (s : Session) (X_tst : list (list nat))
    (y_tst : list nat) : option (list nat) :=
  test_loop fuel s (run_tst_initializer X_tst y_tst) [].

(** One row through the model at inference, as a function of the row
    alone: its feature vector through the Dense layer, and the position
    of the largest logit. *)
Definition row_logits (st : gmap string (Tensor F)) (ids : list nat) : list F :=
  vadd (vecmat (units (output_dense m)) (features_spec m st ids)
               (read2 st (dense_kernel (output_dense m))))
       (read1 st (dense_bias (output_dense m))).

Definition row_prediction (st : gmap string (Tensor F)) (ids : list nat) : nat :=
  argmax (row_logits st ids).

(** A variable store whose Dense weights have the shapes [Dense.build]
    gave them. *)
Definition dense_shaped (st : gmap string (Tensor F)) : Prop :=
  Forall (λ w, length w = units (output_dense m)) (read2 st (dense_kernel (output_dense m))) ∧
  length (read1 st (dense_bias (output_dense m))) = units (output_dense m).
End test.

End evaluation.

(** ** More concrete inputs *)

Module more_examples.
Import tensorflow morphconv training examples.

(** A training split in which "good" occurs 16 times and "fine" 15 times. *)
Definition ranked_sentences : list (list string) :=
  [replicate 16 "good"%string ++ replicate 15 "fine"%string ++ ["bad"%string]].

(** Two rows of 30 ids with their labels, as a test set. *)
Definition demo_X_tst : list (list nat) := [replicate 30 2; replicate 30 0].
Definition demo_y_tst : list nat := [1; 0].
End more_examples.

(** * Properties *)

(** A closed decidable proposition, by evaluation. *)
Ltac by_evaluation := apply (bool_decide_unpack _); vm_compute; exact I.

(** ** Padding *)

Module padding_facts.
Import python keras_preprocessing.

Lemma pad_row_post_pre_short (maxlen value : nat) (s : list nat) :
  0 < maxlen → length s ≤ maxlen →
  pad_row maxlen post pre value s = s ++ replicate (maxlen - length s) value.
Proof.
  intros Hk Hs. unfold pad_row, slice_last.
  case_decide as Hlen.
  - destruct s; [|done]. simpl. by rewrite Nat.sub_0_r.
  - case_decide; [lia|].
    replace (length s - maxlen) with 0 by lia. rewrite drop_0.
    by rewrite drop_replicate.
Qed.

Lemma pad_row_post_pre_long (maxlen value : nat) (s : list nat) :
  0 < maxlen → maxlen ≤ length s →
  pad_row maxlen post pre value s = drop (length s - maxlen) s.
Proof.
  intros Hk Hs. unfold pad_row, slice_last.
  case_decide as Hlen; [lia|]. case_decide; [lia|].
  rewrite drop_replicate, length_drop.
  replace (maxlen - (length s - (length s - maxlen))) with 0 by lia.
  simpl. by rewrite app_nil_r.
Qed.

Lemma pad_row_post_pre_length (maxlen value : nat) (s : list nat) :
  0 < maxlen → length (pad_row maxlen post pre value s) = maxlen.
Proof.
  intros Hk. destruct (decide (length s ≤ maxlen)).
  - rewrite pad_row_post_pre_short by done.
    rewrite length_app, length_replicate. lia.
  - rewrite pad_row_post_pre_long by lia. rewrite length_drop. lia.
Qed.

Lemma pad_row_post_pre_elem (maxlen value : nat) (s : list nat) (x : nat) :
  0 < maxlen → x ∈ pad_row maxlen post pre value s → x ∈ s ∨ x = value.
Proof.
  intros Hk. destruct (decide (length s ≤ maxlen)).
  - rewrite pad_row_post_pre_short by done.
    rewrite elem_of_app. intros [?|Hx]; [by left|right].
    by apply elem_of_replicate in Hx as [? _].
  - rewrite pad_row_post_pre_long by lia.
    intros Hx. left. by eapply subseteq_drop.
Qed.
End padding_facts.

(** ** Sorting *)

Module sort_facts.
Import python.

Lemma insert_stable_perm {A} (le : A → A → bool) x l :
  insert_stable le x l ≡ₚ x :: l.
Proof.
  induction l as [|y l IH]; simpl; [done|].
  destruct (le x y); [done|]. rewrite IH. apply Permutation_swap.
Qed.

Lemma sorted_perm {A} (le : A → A → bool) l : sorted le l ≡ₚ l.
Proof.
  induction l as [|x l IH]; simpl; [done|].
  unfold sorted in *. simpl. by rewrite insert_stable_perm, IH.
Qed.

Lemma StronglySorted_mono {A} (R1 R2 : A → A → Prop) l :
  (∀ a b, R1 a b → R2 a b) → StronglySorted R1 l → StronglySorted R2 l.
Proof.
  intros HR. induction 1 as [|x l Hl IH Hx]; constructor; [done|].
  eapply Forall_impl; [exact Hx|]. intros y. apply HR.
Qed.

Section order.
Context {A} (le : A → A → bool).
Hypothesis le_total : ∀ a b, le a b = true ∨ le b a = true.
Hypothesis le_trans : ∀ a b c, le a b = true → le b c = true → le a c = true.

Lemma insert_stable_sorted x l :
  StronglySorted (λ a b, le a b = true) l →
  StronglySorted (λ a b, le a b = true) (insert_stable le x l).
Proof.
  induction 1 as [|y l Hl IH Hy]; simpl.
  - repeat constructor.
  - destruct (le x y) eqn:Hxy.
    + constructor; [by constructor|].
      constructor; [done|].
      eapply Forall_impl; [exact Hy|]. intros z Hz. by eapply le_trans.
    + constructor; [done|].
      rewrite insert_stable_perm. constructor; [|done].
      destruct (le_total x y); congruence.
Qed.

Lemma sorted_sorted l : StronglySorted (λ a b, le a b = true) (sorted le l).
Proof.
  induction l as [|x l IH]; [constructor|].
  unfold sorted in *. simpl. by apply insert_stable_sorted.
Qed.
End order.
End sort_facts.

(** ** The counter and the vocabulary *)

Module vocab_facts.
Import python gluonnlp invariants sort_facts.

Lemma count_tokens_fold (tokens : list string) (c : gmap string nat) (token : string) :
  foldl (λ counter t, <[t := S (default 0 (counter !! t))]> counter) c tokens !! token =
  if decide (occurrences token tokens = 0) then c !! token
  else Some (default 0 (c !! token) + occurrences token tokens).
Proof.
  revert c. induction tokens as [|t tokens IH]; intros c; simpl; [done|].
  rewrite IH. unfold occurrences. rewrite filter_cons.
  destruct (decide (t = token)) as [->|Hne]; simpl.
  - rewrite lookup_insert_eq. simpl.
    repeat case_decide; try lia; f_equal; lia.
  - rewrite lookup_insert_ne by done. done.
Qed.

Lemma count_tokens_lookup (tokens : list string) (token : string) :
  count_tokens tokens !! token =
  if decide (occurrences token tokens = 0) then None
  else Some (occurrences token tokens).
Proof. unfold count_tokens. rewrite count_tokens_fold. by rewrite lookup_empty. Qed.

Lemma freq_ge_total a b : freq_ge a b = true ∨ freq_ge b a = true.
Proof.
  unfold freq_ge. destruct (decide (b.2 ≤ a.2)).
  - left. by apply bool_decide_eq_true.
  - right. apply bool_decide_eq_true. lia.
Qed.

Lemma freq_ge_trans a b c :
  freq_ge a b = true → freq_ge b c = true → freq_ge a c = true.
Proof. unfold freq_ge. rewrite !bool_decide_eq_true. lia. Qed.

Lemma token_freqs_perm (counter : gmap string nat) :
  token_freqs counter ≡ₚ map_to_list counter.
Proof. unfold token_freqs. by rewrite !sorted_perm. Qed.

Lemma token_freqs_sorted (counter : gmap string nat) :
  StronglySorted (λ a b, b.2 ≤ a.2) (token_freqs counter).
Proof.
  unfold token_freqs.
  eapply StronglySorted_mono;
    last (apply (sorted_sorted freq_ge freq_ge_total freq_ge_trans)).
  intros a b. unfold freq_ge. by rewrite bool_decide_eq_true.
Qed.

Lemma token_freqs_elem (counter : gmap string nat) token freq :
  (token, freq) ∈ token_freqs counter ↔ counter !! token = Some freq.
Proof. by rewrite token_freqs_perm, elem_of_map_to_list. Qed.

Lemma token_freqs_nodup (counter : gmap string nat) : NoDup (token_freqs counter).*1.
Proof. rewrite token_freqs_perm. apply NoDup_fst_map_to_list. Qed.

Lemma token_freqs_length (counter : gmap string nat) :
  length (token_freqs counter) = size counter.
Proof. rewrite token_freqs_perm. by rewrite length_map_to_list. Qed.

Lemma filter_none {A} (P : A → Prop) `{∀ x, Decision (P x)} (l : list A) :
  Forall (λ x, ¬ P x) l → filter P l = [].
Proof.
  induction 1 as [|x l Hx _ IH]; [done|]. by rewrite filter_cons_False.
Qed.

(** The loop on a list sorted by falling frequency, with room for every
    entry under the cap: the [break] only cuts entries the frequency
    filter rejects. *)
Lemma index_loop_tokens (S : gset string) (cap min_freq : nat) tfs v :
  StronglySorted (λ a b : string * nat, b.2 ≤ a.2) tfs →
  length (idx_to_token v) + length tfs ≤ cap →
  idx_to_token (index_loop S cap min_freq tfs v) =
  idx_to_token v ++ (filter (λ p, min_freq ≤ p.2 ∧ p.1 ∉ S) tfs).*1.
Proof.
  intros Hs. revert v. induction Hs as [|[token freq] tfs Hs IH Hhd]; intros v Hcap.
  - simpl. by rewrite app_nil_r.
  - simpl in *. rewrite filter_cons. simpl.
    destruct (decide (freq < min_freq ∨ length (idx_to_token v) = cap)) as [[Hlt|Heq]|Hno].
    + rewrite decide_False by lia.
      rewrite filter_none; [by rewrite app_nil_r|].
      eapply Forall_impl; [exact Hhd|]. simpl. intros [t f] Hf. simpl in *. lia.
    + lia.
    + destruct (decide (token ∈ S)) as [Hin|Hnin].
      * rewrite decide_False by tauto. apply IH. lia.
      * rewrite decide_True by (split; [lia|done]).
        rewrite IH; simpl.
        -- by rewrite <-app_assoc.
        -- rewrite length_app. simpl. lia.
Qed.

Lemma setitem_append_wf v token :
  wf_vocab v → token ∉ idx_to_token v →
  wf_vocab {| unknown_token := unknown_token v;
              reserved_tokens := reserved_tokens v;
              idx_to_token := idx_to_token v ++ [token];
              token_to_idx :=
                setitem token (length (idx_to_token v ++ [token]) - 1) (token_to_idx v) |}.
Proof.
  intros [Hd Hi Hn] Hnew. split; simpl.
  - done.
  - intros t i. rewrite length_app. simpl.
    replace (length (idx_to_token v) + 1 - 1) with (length (idx_to_token v)) by lia.
    destruct (decide (token = t)) as [->|Hne].
    + rewrite lookup_insert_eq. split.
      * intros [= <-]. by rewrite list_lookup_middle.
      * intros Hl. f_equal.
        destruct (decide (i < length (idx_to_token v))) as [Hlt|Hge].
        -- rewrite lookup_app_l in Hl by done.
           exfalso. apply Hnew. by eapply list_elem_of_lookup_2.
        -- apply lookup_lt_Some in Hl. rewrite length_app in Hl. simpl in Hl. lia.
    + rewrite lookup_insert_ne by done. rewrite Hi. split.
      * intros Hl. rewrite lookup_app_l; [done|]. by eapply lookup_lt_Some.
      * intros Hl.
        destruct (decide (i < length (idx_to_token v))) as [Hlt|Hge].
        -- by rewrite lookup_app_l in Hl.
        -- rewrite lookup_app_r in Hl by lia.
           apply list_lookup_singleton_Some in Hl as [_ ?]. congruence.
  - apply NoDup_app. split; [done|]. split; [|apply NoDup_singleton].
    intros x Hx Hx'. apply list_elem_of_singleton in Hx'. by subst.
Qed.

Lemma index_loop_wf (S : gset string) (cap min_freq : nat) tfs v :
  wf_vocab v → NoDup tfs.*1 →
  (∀ token, token ∈ idx_to_token v → token ∈ S ∨ token ∉ tfs.*1) →
  wf_vocab (index_loop S cap min_freq tfs v).
Proof.
  revert v. induction tfs as [|[token freq] tfs IH]; intros v Hwf Hnd Hold; simpl; [done|].
  simpl in Hnd. apply NoDup_cons in Hnd as [Hfresh Hnd].
  case_decide; [done|]. case_decide as Hin.
  - apply IH; [done..|]. intros t Ht. destruct (Hold t Ht) as [?|Hn]; [by left|].
    right. simpl in Hn. rewrite not_elem_of_cons in Hn. tauto.
  - assert (token ∉ idx_to_token v) as Hnew.
    { intros Ht. destruct (Hold _ Ht) as [?|Hn]; [done|].
      apply Hn. simpl. left. }
    apply IH; [by apply setitem_append_wf|done|].
    simpl. intros t Ht. apply elem_of_app in Ht as [Ht|Ht].
    + destruct (Hold t Ht) as [?|Hn]; [by left|].
      right. simpl in Hn. rewrite not_elem_of_cons in Hn. tauto.
    + apply list_elem_of_singleton in Ht as ->. by right.
Qed.

Lemma special_wf : wf_vocab (index_special_tokens "<unk>" ["<pad>"%string]).
Proof.
  split; simpl.
  - done.
  - intros token i. unfold setitem; simpl.
    destruct (decide (token = "<pad>"%string)) as [->|Hp].
    + rewrite lookup_insert_eq. split.
      * by intros [= <-].
      * destruct i as [|[|i]]; simpl; [done|done|done].
    + rewrite lookup_insert_ne by done.
      destruct (decide (token = "<unk>"%string)) as [->|Hu].
      * rewrite lookup_insert_eq. split; [by intros [= <-]|].
        destruct i as [|[|i]]; simpl; [done|done|done].
      * rewrite lookup_insert_ne by done. rewrite lookup_empty.
        split; [done|]. destruct i as [|[|i]]; simpl; [congruence|congruence|done].
  - apply NoDup_cons. split; [|apply NoDup_singleton].
    by intros ?%list_elem_of_singleton.
Qed.

Lemma special_elem (token : string) :
  token ∈ (list_to_set ["<pad>"%string] ∪ {["<unk>"%string]} : gset string) ↔
  token = "<pad>"%string ∨ token = "<unk>"%string.
Proof.
  rewrite elem_of_union, elem_of_list_to_set, list_elem_of_singleton, elem_of_singleton.
  done.
Qed.

Lemma special_size :
  size (list_to_set ["<pad>"%string] ∪ {["<unk>"%string]} : gset string) = 2.
Proof. by vm_compute. Qed.

(** The content of a vocabulary, in full. *)
Lemma mkVocab_tokens (counter : gmap string nat) (min_freq : nat) :
  idx_to_token (mkVocab counter min_freq) =
  ["<unk>"%string; "<pad>"%string] ++ frequent_tokens counter min_freq.
Proof.
  unfold mkVocab, index_counter_keys, frequent_tokens.
  cbn [unknown_token index_special_tokens].
  rewrite index_loop_tokens;
    [|apply token_freqs_sorted
     |rewrite special_size, token_freqs_length; simpl; lia].
  cbn [idx_to_token]. do 2 f_equal. apply list_filter_iff. intros [t f]. cbn [fst snd].
  rewrite special_elem. tauto.
Qed.

Lemma mkVocab_wf (counter : gmap string nat) (min_freq : nat) :
  wf_vocab (mkVocab counter min_freq).
Proof.
  unfold mkVocab, index_counter_keys.
  apply index_loop_wf; [apply special_wf|apply token_freqs_nodup|].
  cbn [unknown_token idx_to_token index_special_tokens].
  intros token Ht. left. apply special_elem.
  apply elem_of_cons in Ht as [->|Ht]; [by right|].
  apply list_elem_of_singleton in Ht as ->. by left.
Qed.

Lemma mkVocab_elem (counter : gmap string nat) (min_freq : nat) (token : string) :
  token ∈ idx_to_token (mkVocab counter min_freq) ↔
  token = "<unk>"%string ∨ token = "<pad>"%string ∨
  ∃ freq, counter !! token = Some freq ∧ min_freq ≤ freq.
Proof.
  rewrite mkVocab_tokens. unfold frequent_tokens.
  rewrite elem_of_app, list_elem_of_fmap, elem_of_cons, list_elem_of_singleton.
  split.
  - intros [[->| ->]|[[t f] [-> Hf]]]; [by left|by (right; left)|].
    apply list_elem_of_filter in Hf as [[Hm _] Hf]. simpl in *.
    right; right. exists f. by rewrite <-token_freqs_elem.
  - intros [->|[->|[freq [Hc Hm]]]]; [by (left; left)|by (left; right)|].
    destruct (decide (token = "<unk>"%string)) as [->|Hu]; [by (left; left)|].
    destruct (decide (token = "<pad>"%string)) as [->|Hp]; [by (left; right)|].
    right. exists (token, freq). split; [done|].
    apply list_elem_of_filter. split; [done|]. by apply token_freqs_elem.
Qed.

(** Lookups in a well-formed vocabulary. *)
Lemma getitem_unknown v token :
  wf_vocab v → token ∉ idx_to_token v → getitem (token_to_idx v) token = UNK_IDX.
Proof.
  intros [Hd Hi _] Hnot. unfold getitem.
  destruct (dict_items (token_to_idx v) !! token) as [i|] eqn:Hl; simpl; [|done].
  exfalso. apply Hnot. apply Hi in Hl. by eapply list_elem_of_lookup_2.
Qed.

Lemma getitem_known v token i :
  wf_vocab v → idx_to_token v !! i = Some token → getitem (token_to_idx v) token = i.
Proof.
  intros [_ Hi _] Hl. unfold getitem. apply Hi in Hl. by rewrite Hl.
Qed.

Lemma mkVocab_len (counter : gmap string nat) (min_freq : nat) :
  2 ≤ len (mkVocab counter min_freq).
Proof. unfold len. rewrite mkVocab_tokens. simpl. lia. Qed.

Lemma getitem_valid (counter : gmap string nat) (min_freq : nat) token :
  getitem (token_to_idx (mkVocab counter min_freq)) token < len (mkVocab counter min_freq).
Proof.
  pose proof (mkVocab_wf counter min_freq) as Hwf.
  pose proof (mkVocab_len counter min_freq) as Hlen.
  unfold getitem.
  destruct (dict_items _ !! token) as [i|] eqn:Hl; simpl.
  - apply (wf_items _ Hwf) in Hl. by eapply lookup_lt_Some.
  - rewrite (wf_default _ Hwf). unfold UNK_IDX. lia.
Qed.
End vocab_facts.

(** ** The index split *)

Module numpy_facts.
Import numpy.

Lemma swap_perm {A} (i j : nat) (x : list A) : swap i j x ≡ₚ x.
Proof.
  unfold swap. destruct (x !! i) as [a|] eqn:Hi; [|done].
  destruct (x !! j) as [b|] eqn:Hj; [|done].
  by apply Permutation_insert_swap.
Qed.

Section random.
Context {RandomState : Type}.
Variable rk_interval : nat → RandomState → nat * RandomState.

Lemma shuffle_from_perm {A} (i : nat) (x : list A) (st : RandomState) :
  (shuffle_from rk_interval i x st).1 ≡ₚ x.
Proof.
  revert x st. induction i as [|i IH]; intros x st; simpl; [done|].
  destruct (rk_interval (S i) st) as [j st']. by rewrite IH, swap_perm.
Qed.

Lemma permutation_perm (n : nat) (st : RandomState) :
  (permutation rk_interval n st).1 ≡ₚ seq 0 n.
Proof. apply shuffle_from_perm. Qed.
End random.

Lemma fancy_index_seq (n : nat) (idx : list nat) :
  Forall (λ i, i < n) idx → fancy_index (seq 0 n) idx = idx.
Proof.
  unfold fancy_index. induction 1 as [|i idx Hi _ IH]; simpl; [done|].
  rewrite (proj2 (lookup_seq 0 n i i)) by (split; [done|lia]). simpl.
  f_equal. exact IH.
Qed.

Lemma fancy_index_length {A} (arr : list A) (idx : list nat) :
  Forall (λ i, i < length arr) idx → length (fancy_index arr idx) = length idx.
Proof.
  unfold fancy_index. induction 1 as [|i idx Hi _ IH]; [done|].
  destruct (lookup_lt_is_Some_2 arr i Hi) as [a Ha].
  cbn [omap list_omap]. rewrite Ha. simpl. f_equal. exact IH.
Qed.

Lemma keep_fold_lookup (obj : list nat) (keep : list bool) (i : nat) :
  foldl (λ keep i, <[i := false]> keep) keep obj !! i =
  if decide (i ∈ obj) then (λ _, false) <$> keep !! i else keep !! i.
Proof.
  revert keep. induction obj as [|j obj IH]; intros keep; simpl.
  - destruct (decide (i ∈ [])) as [Hi|_]; [by apply not_elem_of_nil in Hi|done].
  - rewrite IH. destruct (decide (i = j)) as [->|Hne].
    + rewrite (decide_True (P := j ∈ j :: obj)) by left.
      destruct (decide (j < length keep)).
      * rewrite list_lookup_insert_eq by done.
        destruct (lookup_lt_is_Some_2 keep j) as [b ->]; [done|].
        by case_decide.
      * rewrite list_insert_ge by lia. rewrite lookup_ge_None_2 by lia.
        by case_decide.
    + rewrite list_lookup_insert_ne by done.
      destruct (decide (i ∈ obj)) as [Hin|Hnin].
      * rewrite decide_True; [done|]. by right.
      * rewrite decide_False; [done|]. rewrite not_elem_of_cons. tauto.
Qed.

Lemma keep_mask_seq (n : nat) (obj : list nat) :
  keep_mask n obj = (λ i, bool_decide (i ∉ obj)) <$> seq 0 n.
Proof.
  apply list_eq. intros i. unfold keep_mask. rewrite keep_fold_lookup.
  rewrite list_lookup_fmap.
  destruct (decide (i < n)) as [Hlt|Hge].
  - rewrite lookup_replicate_2 by done.
    rewrite (proj2 (lookup_seq 0 n i i)) by (split; [done|lia]). simpl.
    case_decide.
    + by rewrite bool_decide_eq_false_2 by tauto.
    + by rewrite bool_decide_eq_true_2.
  - rewrite (lookup_ge_None_2 (replicate n true)) by (rewrite length_replicate; lia).
    rewrite (lookup_ge_None_2 (seq 0 n)) by (rewrite length_seq; lia).
    by case_decide.
Qed.

Lemma filter_zip_fmap {A} (f : A → bool) (l : list A) :
  (filter (λ p : A * bool, p.2 = true) (zip l (f <$> l))).*1 = filter (λ x, f x = true) l.
Proof.
  induction l as [|x l IH]; [done|].
  rewrite fmap_cons. unfold zip in *. cbn [zip_with].
  rewrite !filter_cons. cbn [snd].
  destruct (decide (f x = true)); [rewrite fmap_cons; cbn [fst]|]; by rewrite IH.
Qed.

(** [np.delete] on [range(n)] keeps the numbers that are not deleted. *)
Lemma delete_seq (n : nat) (obj : list nat) :
  delete (seq 0 n) obj = filter (λ i, i ∉ obj) (seq 0 n).
Proof.
  unfold delete. rewrite length_seq, keep_mask_seq, filter_zip_fmap.
  apply list_filter_iff. intros i. by rewrite bool_decide_eq_true.
Qed.
End numpy_facts.

Module split_facts.
Import numpy split numpy_facts.

Lemma length_complement (n : nat) (val : list nat) :
  NoDup val → (∀ i, i ∈ val → i < n) →
  length (filter (λ i, i ∉ val) (seq 0 n)) + length val = n.
Proof.
  intros Hnd Hsub.
  assert (filter (λ i, i ∈ val) (seq 0 n) ≡ₚ val) as Hin.
  { apply NoDup_Permutation; [apply NoDup_filter, NoDup_seq|done|].
    intros i. rewrite list_elem_of_filter, elem_of_seq.
    split; [tauto|]. intros Hi. split; [done|]. specialize (Hsub i Hi). lia. }
  apply Permutation_length in Hin. rewrite <-Hin.
  pose proof (filter_app_complement (λ i, i ∈ val) (seq 0 n)) as Hc.
  apply Permutation_length in Hc. rewrite length_app, length_seq in Hc. lia.
Qed.

Section cell_3.
Context {RandomState : Type}.
Variable rk_interval : nat → RandomState → nat * RandomState.

Lemma val_indices_take (n : nat) (st : RandomState) :
  0 < n →
  val_indices rk_interval n st =
  Some (take (n / 5) (permutation rk_interval n st).1,
        (permutation rk_interval n st).2).
Proof.
  intros Hn. unfold val_indices, choice, range, int_times_02.
  rewrite length_seq. rewrite decide_False by lia.
  assert (n / 5 ≤ n) by (apply Nat.Div0.div_le_upper_bound; lia).
  rewrite decide_False by lia.
  destruct (permutation rk_interval n st) as [p st'] eqn:Hp. simpl.
  f_equal. f_equal. apply fancy_index_seq.
  apply Forall_forall. intros i Hi.
  assert (i ∈ seq 0 n) as Hs.
  { rewrite <-(permutation_perm rk_interval n st), Hp. simpl.
    by eapply subseteq_take. }
  apply elem_of_seq in Hs. lia.
Qed.
End cell_3.
End split_facts.

(** ** Encoding *)

Module preprocessing_facts.
Import python keras_preprocessing gluonnlp preprocessing invariants.
Import padding_facts vocab_facts.

Lemma vocab_wf (X_tr : list (list string)) : wf_vocab (vocab X_tr).
Proof. unfold vocab. apply mkVocab_wf. Qed.

Lemma encode_row_ok (v : Vocab) (sen : list string) :
  (∀ token, getitem (token_to_idx v) token < len v) →
  length (pad_row maxlen post pre value (to_idx v sen)) = 30 ∧
  Forall (λ i, i < len v ∨ i = value) (pad_row maxlen post pre value (to_idx v sen)).
Proof.
  intros Hv. split.
  - apply pad_row_post_pre_length. unfold maxlen. lia.
  - apply Forall_forall. intros i Hi.
    apply pad_row_post_pre_elem in Hi; [|unfold maxlen; lia].
    destruct Hi as [Hi| ->]; [|by right].
    left. unfold to_idx in Hi. apply list_elem_of_fmap in Hi as [token [-> _]].
    apply Hv.
Qed.

Lemma set_embedding_length {V : Type} (embs : TokenEmbedding V) (v : Vocab) :
  length (set_embedding v embs) = len v.
Proof.
  unfold set_embedding, len. destruct (idx_to_token v); simpl; [done|].
  by rewrite length_fmap.
Qed.
End preprocessing_facts.

(** ** The graph of the model *)

Module model_facts.
Import tensorflow morphconv.

Section model.
Context {F : Type} `{FloatOps F}.
Variable he_uniform : nat → nat → nat → list (list (list F)).
Variable glorot_uniform : nat → nat → list (list F).
Variable n_of_classes : nat.
Variable embedding : list (list F).

Local Abbreviation m :=
  (MorphConv_init he_uniform glorot_uniform n_of_classes embedding).

Lemma trainable_variables :
  TRAINABLE_VARIABLES (graph m) =
  ["embedding_layer/non_static";
   "convoluion_layer/tri_gram/conv1d/kernel";
   "convoluion_layer/tri_gram/conv1d/bias";
   "convoluion_layer/tetra_gram/conv1d_1/kernel";
   "convoluion_layer/tetra_gram/conv1d_1/bias";
   "convoluion_layer/penta_gram/conv1d_2/kernel";
   "convoluion_layer/penta_gram/conv1d_2/bias";
   "output_layer/dense/kernel"; "output_layer/dense/bias"]%string.
Proof. reflexivity. Qed.

Lemma global_variables :
  GLOBAL_VARIABLES (graph m) =
  [("embedding_layer/static", T2 embedding);
   ("embedding_layer/non_static", T2 embedding);
   ("convoluion_layer/tri_gram/conv1d/kernel",
    T3 (he_uniform 3 (shape_1 embedding) 100));
   ("convoluion_layer/tri_gram/conv1d/bias", T1 (replicate 100 f0));
   ("convoluion_layer/tetra_gram/conv1d_1/kernel",
    T3 (he_uniform 4 (shape_1 embedding) 100));
   ("convoluion_layer/tetra_gram/conv1d_1/bias", T1 (replicate 100 f0));
   ("convoluion_layer/penta_gram/conv1d_2/kernel",
    T3 (he_uniform 5 (shape_1 embedding) 100));
   ("convoluion_layer/penta_gram/conv1d_2/bias", T1 (replicate 100 f0));
   ("output_layer/dense/kernel", T2 (glorot_uniform 300 n_of_classes));
   ("output_layer/dense/bias", T1 (replicate n_of_classes f0))]%string.
Proof. reflexivity. Qed.
End model.

(** A weight with a regularizer, by family of the layer: the penalty
    reaches the graph's collection from a [tf.layers] layer only. *)
Lemma add_weight_collection {F : Type} `{FloatOps F} (a : api) (layer name : string)
    (init : Tensor F) (reg : Tensor F → F) (g : Graph F) :
  length (REGULARIZATION_LOSSES (add_weight name init (Some reg) (new_layer a layer) g).2) =
  match a with
  | keras_layers => length (REGULARIZATION_LOSSES g)
  | tf_layers => S (length (REGULARIZATION_LOSSES g))
  end ∧
  length (losses (add_weight name init (Some reg) (new_layer a layer) g).1.2) = 1.
Proof.
  destruct a; simpl; (split; [|done]); [done|]. rewrite length_app. simpl. lia.
Qed.
End model_facts.

(** ** Shapes of the kernels *)

Module kernel_facts.
Import tensorflow morphconv.

Section kernels.
Context {F : Type} `{FloatOps F}.

Lemma zip_with_fmap_same {A B C D} (f : B → C → D) (g : A → B) (h : A → C)
    (l : list A) :
  zip_with f (g <$> l) (h <$> l) = (λ x, f (g x) (h x)) <$> l.
Proof. by rewrite zip_with_fmap_l, zip_with_fmap_r, zip_with_diag. Qed.

Lemma vadd_length (a b : list F) : length (vadd a b) = length a `min` length b.
Proof. apply length_zip_with. Qed.

Lemma vsum_length (n : nat) (vs : list (list F)) :
  Forall (λ v, length v = n) vs → length (vsum n vs) = n.
Proof.
  unfold vsum.
  assert (length (replicate n f0) = n) as Hacc by apply length_replicate.
  revert Hacc. generalize (replicate n f0).
  intros acc Hacc Hvs. revert acc Hacc.
  induction Hvs as [|v vs Hv _ IH]; intros acc Hacc; simpl; [done|].
  apply IH. rewrite vadd_length. lia.
Qed.

Lemma vecmat_length (n : nat) (a : list F) (W : list (list F)) :
  Forall (λ w, length w = n) W → length (vecmat n a W) = n.
Proof.
  intros HW. apply vsum_length. revert a.
  induction HW as [|w W Hw _ IH]; intros [|ai a]; simpl; constructor.
  - by rewrite length_fmap.
  - apply IH.
Qed.

Lemma conv_at_length (filters : nat) (kernel : list (list (list F))) (bias : list F)
    (window : list (list F)) :
  Forall (Forall (λ w, length w = filters)) kernel → length bias = filters →
  length (conv_at filters kernel bias window) = filters.
Proof.
  intros Hk Hb. unfold conv_at. rewrite length_fmap, vadd_length, vsum_length; [lia|].
  revert window. induction Hk as [|W kernel HW _ IH]; intros [|x window]; simpl;
    constructor.
  - by apply vecmat_length.
  - apply IH.
Qed.

Lemma conv1d_length (kernel_size filters : nat) kernel bias (x : list (list F)) :
  length (conv1d kernel_size filters kernel bias x) = length x + 1 - kernel_size.
Proof. unfold conv1d. by rewrite length_fmap, length_seq. Qed.

Lemma conv1d_rows (kernel_size filters : nat) kernel bias (x : list (list F)) :
  Forall (Forall (λ w, length w = filters)) kernel → length bias = filters →
  Forall (λ v, length v = filters) (conv1d kernel_size filters kernel bias x).
Proof.
  intros Hk Hb. unfold conv1d. apply Forall_fmap, Forall_forall.
  intros t _. simpl. by apply conv_at_length.
Qed.

Lemma max_over_time_length (n : nat) (x : list (list F)) :
  x ≠ [] → Forall (λ v, length v = n) x → length (max_over_time x) = n.
Proof.
  intros Hne Hx. destruct Hx as [|v vs Hv Hvs]; [done|]. simpl. clear Hne.
  revert v Hv. induction Hvs as [|w vs Hw _ IH]; intros v Hv; simpl; [done|].
  apply IH. rewrite length_zip_with. lia.
Qed.

Lemma bank_features_length (c : Conv1D F) (st : gmap string (Tensor F))
    (frozen trainable : list (list F)) :
  bank_shaped c st →
  kernel_size c ≤ length frozen → length trainable = length frozen →
  length (bank_features c st frozen trainable) = filters c.
Proof.
  intros [Hk Hb] Hlen Heq. unfold bank_features.
  apply max_over_time_length.
  - intros Hnil. apply (f_equal length) in Hnil.
    rewrite length_zip_with, !conv1d_length in Hnil. simpl in Hnil. lia.
  - pose proof (conv1d_rows (kernel_size c) (filters c) _ _ frozen Hk Hb) as Hf.
    pose proof (conv1d_rows (kernel_size c) (filters c) _ _ trainable Hk Hb) as Ht.
    revert Ht. generalize (conv1d (kernel_size c) (filters c)
      (read3 st (conv_kernel c)) (read1 st (conv_bias c)) trainable).
    induction Hf as [|v vs Hv _ IH]; intros [|w ws] Hws; simpl; constructor.
    + apply Forall_cons in Hws as [Hw _]. rewrite vadd_length. lia.
    + apply Forall_cons in Hws as [_ Hws]. by apply IH.
Qed.
End kernels.
End kernel_facts.

(** ** The training loop *)

Module training_facts.
Import tensorflow morphconv training.

Section loop.
Context {F : Type} `{FloatOps F}.
Context {OptState RandomState : Type}.
Variable gradients : (gmap string (Tensor F) → F) → gmap string (Tensor F) → string → Tensor F.
Variable adam_update : OptState → string → Tensor F → Tensor F → Tensor F.
Variable adam_next : OptState → OptState.
Variable shuffle : list (list nat * nat) → RandomState → list (list nat * nat) * RandomState.
Variable random_uniform : nat → nat → RandomState → list (list F) * RandomState.
Variable m : MorphConv (F := F).
Variable n_of_classes : nat.

Local Abbreviation Session := (Session (F := F) (OptState := OptState) (RandomState := RandomState)).
Local Abbreviation train_on := (train_on gradients adam_update adam_next random_uniform m n_of_classes).
Local Abbreviation validate_on := (validate_on (OptState := OptState) (RandomState := RandomState) m).
Local Abbreviation run_training :=
  (run_training gradients adam_update adam_next random_uniform m n_of_classes).
Local Abbreviation run_validation :=
  (run_validation (OptState := OptState) (RandomState := RandomState) m).
Local Abbreviation losses_tr :=
  (losses_tr gradients adam_update adam_next random_uniform m n_of_classes).
Local Abbreviation losses_val :=
  (losses_val (OptState := OptState) (RandomState := RandomState) m).

Lemma minimize_untouched (g : Graph F) (loss : Run F → F) (r : Run F)
    (opt : OptState) (name : string) :
  name ∉ TRAINABLE_VARIABLES g →
  (minimize gradients adam_update adam_next g loss r opt).1 !! name = variables r !! name.
Proof.
  intros Hnot. unfold minimize. cbn [fst]. rewrite map_lookup_imap.
  destruct (variables r !! name) as [v|]; [|done]. simpl.
  by rewrite bool_decide_eq_false_2.
Qed.

Lemma train_on_iterators (b : Batch) (s : Session) :
  tr_iterator (train_on b s).2 = tr_iterator s ∧
  val_iterator (train_on b s).2 = val_iterator s.
Proof.
  unfold training.train_on. destruct (random_uniform _ _ _) as [u rng].
  by destruct (training_op _ _ _ _ _ _) as [vars opt].
Qed.

Lemma train_on_untouched (b : Batch) (s : Session) (name : string) :
  name ∉ TRAINABLE_VARIABLES (graph m) →
  sess_variables (train_on b s).2 !! name = sess_variables s !! name.
Proof.
  intros Hnot. unfold training.train_on. destruct (random_uniform _ _ _) as [u rng].
  destruct (training_op _ _ _ _ _ _) as [vars opt] eqn:Hop. simpl.
  unfold training_op in Hop.
  pose proof (minimize_untouched (graph m) (total_loss m)
    {| variables := sess_variables s; X := b.1; y := b.2;
       is_training := true; noise := u |} (sess_opt s) name Hnot) as Hmin.
  rewrite Hop in Hmin. exact Hmin.
Qed.

Lemma while_true_training (bs : list Batch) :
  ∀ (s : Session) (avg : F) (step : nat),
    tr_iterator s = bs →
    (∀ fuel, fuel ≤ length bs → while_true run_training fuel s avg step = None) ∧
    (∀ fuel, length bs < fuel →
       while_true run_training fuel s avg step =
       Some ((losses_tr bs s).2, foldl fadd avg (losses_tr bs s).1, step + length bs)).
Proof.
  induction bs as [|b bs IH]; intros s avg step Hit.
  - split; intros fuel Hfuel.
    + by replace fuel with 0 by (simpl in Hfuel; lia).
    + destruct fuel as [|fuel]; [simpl in Hfuel; lia|].
      simpl. unfold training.run_training, get_next. rewrite Hit.
      by rewrite Nat.add_0_r.
  - set (s0 := {| sess_variables := sess_variables s; sess_opt := sess_opt s;
                  sess_rng := sess_rng s; tr_iterator := bs;
                  val_iterator := val_iterator s |}).
    assert (run_training s = (Value (train_on b s0).1, (train_on b s0).2)) as Hrun.
    { unfold training.run_training, get_next. rewrite Hit. fold s0.
      by destruct (train_on b s0). }
    assert (losses_tr (b :: bs) s =
            ((train_on b s0).1 :: (losses_tr bs (train_on b s0).2).1,
             (losses_tr bs (train_on b s0).2).2)) as Hls.
    { cbn [training.losses_tr]. fold s0. destruct (train_on b s0) as [loss s1].
      simpl. by destruct (losses_tr bs s1). }
    assert (tr_iterator (train_on b s0).2 = bs) as Hit'.
    { by rewrite (proj1 (train_on_iterators b s0)). }
    destruct (IH (train_on b s0).2 (fadd avg (train_on b s0).1) (S step) Hit')
      as [IHnone IHsome].
    split; intros fuel Hfuel.
    + destruct fuel as [|fuel]; [done|]. cbn [while_true]. rewrite Hrun.
      apply IHnone. simpl in Hfuel. lia.
    + destruct fuel as [|fuel]; [simpl in Hfuel; lia|]. cbn [while_true].
      rewrite Hrun, Hls. rewrite IHsome by (simpl in Hfuel; lia).
      simpl. do 2 f_equal. lia.
Qed.

Lemma while_true_validation (bs : list Batch) :
  ∀ (s : Session) (avg : F) (step : nat),
    val_iterator s = bs →
    (∀ fuel, fuel ≤ length bs → while_true run_validation fuel s avg step = None) ∧
    (∀ fuel, length bs < fuel →
       while_true run_validation fuel s avg step =
       Some ((losses_val bs s).2, foldl fadd avg (losses_val bs s).1, step + length bs)).
Proof.
  induction bs as [|b bs IH]; intros s avg step Hit.
  - split; intros fuel Hfuel.
    + by replace fuel with 0 by (simpl in Hfuel; lia).
    + destruct fuel as [|fuel]; [simpl in Hfuel; lia|].
      simpl. unfold training.run_validation, get_next. rewrite Hit.
      by rewrite Nat.add_0_r.
  - set (s0 := {| sess_variables := sess_variables s; sess_opt := sess_opt s;
                  sess_rng := sess_rng s; tr_iterator := tr_iterator s;
                  val_iterator := bs |}).
    assert (run_validation s = (Value (validate_on b s0).1, (validate_on b s0).2)) as Hrun.
    { unfold training.run_validation, get_next. rewrite Hit. by fold s0. }
    assert (losses_val (b :: bs) s =
            ((validate_on b s0).1 :: (losses_val bs (validate_on b s0).2).1,
             (losses_val bs (validate_on b s0).2).2)) as Hls.
    { cbn [training.losses_val]. fold s0. simpl. by destruct (losses_val bs s0). }
    assert (val_iterator (validate_on b s0).2 = bs) as Hit' by done.
    destruct (IH (validate_on b s0).2 (fadd avg (validate_on b s0).1) (S step) Hit')
      as [IHnone IHsome].
    split; intros fuel Hfuel.
    + destruct fuel as [|fuel]; [done|]. cbn [while_true]. rewrite Hrun.
      apply IHnone. simpl in Hfuel. lia.
    + destruct fuel as [|fuel]; [simpl in Hfuel; lia|]. cbn [while_true].
      rewrite Hrun, Hls. rewrite IHsome by (simpl in Hfuel; lia).
      simpl. do 2 f_equal. lia.
Qed.

Lemma losses_tr_facts (bs : list Batch) :
  ∀ s : Session,
    length (losses_tr bs s).1 = length bs ∧
    val_iterator (losses_tr bs s).2 = val_iterator s ∧
    (tr_iterator s = bs → tr_iterator (losses_tr bs s).2 = []) ∧
    (∀ name, name ∉ TRAINABLE_VARIABLES (graph m) →
       sess_variables (losses_tr bs s).2 !! name = sess_variables s !! name).
Proof.
  induction bs as [|b bs IH]; intros s; [done|].
  cbn [training.losses_tr].
  set (s0 := {| sess_variables := sess_variables s; sess_opt := sess_opt s;
                sess_rng := sess_rng s; tr_iterator := bs;
                val_iterator := val_iterator s |}).
  pose proof (train_on_iterators b s0) as [Htr Hval].
  pose proof (train_on_untouched b s0) as Hun.
  destruct (train_on b s0) as [loss s1]. simpl in *.
  destruct (IH s1) as (Hlen & Hv & Ht & Hu).
  destruct (losses_tr bs s1) as [ls s2]. simpl in *.
  repeat split.
  - by rewrite Hlen.
  - by rewrite Hv, Hval.
  - intros _. by apply Ht.
  - intros name Hname. by rewrite Hu, Hun.
Qed.

Lemma losses_val_facts (bs : list Batch) :
  ∀ s : Session,
    length (losses_val bs s).1 = length bs ∧
    tr_iterator (losses_val bs s).2 = tr_iterator s ∧
    (val_iterator s = bs → val_iterator (losses_val bs s).2 = []) ∧
    sess_variables (losses_val bs s).2 = sess_variables s.
Proof.
  induction bs as [|b bs IH]; intros s; [done|].
  cbn [training.losses_val].
  set (s0 := {| sess_variables := sess_variables s; sess_opt := sess_opt s;
                sess_rng := sess_rng s; tr_iterator := tr_iterator s;
                val_iterator := bs |}).
  unfold training.validate_on. cbn [fst snd].
  destruct (IH s0) as (Hlen & Ht & Hv & Hvars).
  destruct (losses_val bs s0) as [ls s2]. simpl in *.
  repeat split; [by rewrite Hlen|done|intros _; by apply Hv|done].
Qed.

Variables (X_tr X_val : list (list nat)) (y_tr y_val : list nat).

Local Abbreviation epoch :=
  (epoch gradients adam_update adam_next shuffle random_uniform m n_of_classes
         X_tr X_val y_tr y_val).
Local Abbreviation run_epochs :=
  (run_epochs gradients adam_update adam_next shuffle random_uniform m n_of_classes
              X_tr X_val y_tr y_val).

(** A finished loop has made one run per batch. *)
Lemma while_true_training_Some (fuel : nat) (s s' : Session) (avg avg' : F)
    (step step' : nat) :
  while_true run_training fuel s avg step = Some (s', avg', step') →
  s' = (losses_tr (tr_iterator s) s).2.
Proof.
  intros Hrun.
  destruct (while_true_training (tr_iterator s) s avg step eq_refl) as [Hnone Hsome].
  destruct (decide (fuel ≤ length (tr_iterator s))) as [Hle|Hgt].
  - rewrite Hnone in Hrun by done. discriminate.
  - rewrite Hsome in Hrun by lia. by injection Hrun as <- _ _.
Qed.

Lemma while_true_validation_Some (fuel : nat) (s s' : Session) (avg avg' : F)
    (step step' : nat) :
  while_true run_validation fuel s avg step = Some (s', avg', step') →
  s' = (losses_val (val_iterator s) s).2.
Proof.
  intros Hrun.
  destruct (while_true_validation (val_iterator s) s avg step eq_refl) as [Hnone Hsome].
  destruct (decide (fuel ≤ length (val_iterator s))) as [Hle|Hgt].
  - rewrite Hnone in Hrun by done. discriminate.
  - rewrite Hsome in Hrun by lia. by injection Hrun as <- _ _.
Qed.

(** An epoch changes no variable outside the trainable collection. *)
Lemma epoch_untouched (fuel : nat) (s s' : Session) res (name : string) :
  name ∉ TRAINABLE_VARIABLES (graph m) →
  epoch fuel s = Some (s', res) →
  sess_variables s' !! name = sess_variables s !! name.
Proof.
  intros Hname. unfold training.epoch.
  destruct (while_true run_training fuel _ _ _) as [[[s1 a1] k1]|] eqn:Htr;
    [|discriminate].
  cbn [mbind option_bind].
  destruct (while_true run_validation fuel _ _ _) as [[[s2 a2] k2]|] eqn:Hval;
    [|discriminate].
  cbn [mbind option_bind].
  apply while_true_training_Some in Htr. apply while_true_validation_Some in Hval.
  assert (sess_variables s2 !! name = sess_variables s !! name) as Hvars.
  { rewrite Hval.
    rewrite (proj2 (proj2 (proj2 (losses_val_facts _ _)))).
    unfold run_val_initializer. cbn [sess_variables]. rewrite Htr.
    rewrite (proj2 (proj2 (proj2 (losses_tr_facts _ _))) name Hname).
    unfold run_tr_initializer. by destruct (shuffle _ _). }
  intros Hres. destruct (divide a1 k1); [by injection Hres as <- _|].
  destruct (divide a2 k2); by injection Hres as <- _.
Qed.

Lemma run_epochs_untouched (n fuel : nat) (name : string) :
  name ∉ TRAINABLE_VARIABLES (graph m) →
  ∀ (s s' : Session) tr_hist val_hist res,
    run_epochs n fuel s tr_hist val_hist = Some (s', res) →
    sess_variables s' !! name = sess_variables s !! name.
Proof.
  intros Hname. induction n as [|n IH]; intros s s' tr_hist val_hist res; simpl.
  - by intros [= <- _].
  - destruct (epoch fuel s) as [[s1 r1]|] eqn:Hep; [|discriminate].
    cbn [mbind option_bind].
    pose proof (epoch_untouched fuel s s1 r1 name Hname Hep) as H1.
    destruct r1 as [e|[a b]].
    + intros [= <- _]. exact H1.
    + intros Hrun. apply IH in Hrun. by rewrite Hrun.
Qed.
End loop.
End training_facts.

(** * The claims *)

Section preprocessing_claims.
Import python keras_preprocessing gluonnlp preprocessing numpy split invariants.
Import padding_facts vocab_facts preprocessing_facts numpy_facts split_facts.
Import examples.

(** C1: every review of the train, validation and test splits is encoded
    (tokenizer, vocabulary lookup, padding/truncation) as a row of exactly
    30 integers, each of them a valid vocabulary id (below [len(vocab)])
    or the pad value; the encoded splits are the reviews encoded one by
    one, in order. *)
Theorem encoding_is_30_valid_ids (morphs : string → list string) {V : Type}
    (fasttext_simple : TokenEmbedding V) (tr val tst : list string) :
  let ns := preprocess morphs fasttext_simple tr val tst in
  let valid_row (row : list nat) :=
    length row = 30 ∧ Forall (λ i, i < len (ns_vocab ns) ∨ i = value) row in
  X_tr ns = encode_review morphs (ns_vocab ns) <$> tr ∧
  X_val ns = encode_review morphs (ns_vocab ns) <$> val ∧
  X_tst ns = encode_review morphs (ns_vocab ns) <$> tst ∧
  (∀ document, valid_row (encode_review morphs (ns_vocab ns) document)) ∧
  Forall valid_row (X_tr ns ++ X_val ns ++ X_tst ns).
Proof.
  intros ns valid_row.
  assert (∀ document, valid_row (encode_review morphs (ns_vocab ns) document)) as Hrow.
  { intros document. subst ns valid_row.
    unfold preprocess, final_preprocessing, build_vocab, encode_review.
    cbn [ns_vocab]. apply encode_row_ok. intros token. unfold vocab.
    apply getitem_valid. }
  assert (X_tr ns = encode_review morphs (ns_vocab ns) <$> tr ∧
          X_val ns = encode_review morphs (ns_vocab ns) <$> val ∧
          X_tst ns = encode_review morphs (ns_vocab ns) <$> tst) as (Htr & Hval & Htst).
  { subst ns. unfold preprocess, final_preprocessing, build_vocab.
    cbn [X_tr X_val X_tst ns_vocab].
    unfold encode, pad_sequences, tokenize, encode_review.
    by rewrite <-!list_fmap_compose. }
  repeat (split; [done|]).
  rewrite Htr, Hval, Htst, !Forall_app, !Forall_fmap.
  repeat split; apply Forall_forall; intros document _; apply Hrow.
Qed.

(** C2, as amended: a token that is not in the vocabulary built from the
    training split is looked up as the fixed unknown id 0, the position of
    ["<unk>"]; that id is an existing one (below [len(vocab)]) and is not
    the pad value 1, which is the position of ["<pad>"]. *)
Theorem unknown_token_maps_to_unk (X_tr : list (list string)) (token : string) :
  token ∉ idx_to_token (vocab X_tr) →
  getitem (token_to_idx (vocab X_tr)) token = UNK_IDX ∧
  idx_to_token (vocab X_tr) !! UNK_IDX = Some "<unk>"%string ∧
  idx_to_token (vocab X_tr) !! value = Some "<pad>"%string ∧
  UNK_IDX ≠ value ∧
  UNK_IDX < len (vocab X_tr).
Proof.
  intros Hnot. split; [apply getitem_unknown; [apply vocab_wf|done]|].
  unfold vocab, len. rewrite mkVocab_tokens.
  repeat split; [unfold UNK_IDX, value; lia|].
  rewrite length_app. cbn [length]. unfold UNK_IDX. lia.
Qed.

Lemma unknown_token_maps_to_unk_witness :
  ("unseen"%string ∉ idx_to_token (vocab demo_sentences)) ∧
  getitem (token_to_idx (vocab demo_sentences)) "unseen" = UNK_IDX ∧
  idx_to_token (vocab demo_sentences) !! UNK_IDX = Some "<unk>"%string ∧
  idx_to_token (vocab demo_sentences) !! value = Some "<pad>"%string ∧
  UNK_IDX ≠ value ∧
  UNK_IDX < len (vocab demo_sentences).
Proof.
  assert ("unseen"%string ∉ idx_to_token (vocab demo_sentences)) as Hnot
    by by_evaluation.
  split; [exact Hnot|].
  exact (unknown_token_maps_to_unk demo_sentences "unseen" Hnot).
Defined.

(** C2, as stated, fails: with "good" fifteen times and "bad" once in the
    training split, the vocabulary is [<unk>, <pad>, good]; the token
    "unseen" (and "bad", too rare to be kept) is outside it and is looked
    up as 0, which is not the pad value 1. *)
Lemma unknown_id_differs_from_pad_value :
  idx_to_token (vocab demo_sentences) = ["<unk>"; "<pad>"; "good"]%string ∧
  getitem (token_to_idx (vocab demo_sentences)) "unseen" = 0 ∧
  getitem (token_to_idx (vocab demo_sentences)) "bad" = 0 ∧
  value = 1 ∧
  getitem (token_to_idx (vocab demo_sentences)) "unseen" ≠ value.
Proof. vm_compute. repeat split; discriminate. Qed.

(** C3: the vocabulary and the embedding matrix are those built from the
    tokens of the training split alone: the vocabulary is
    [Vocab(count_tokens(training tokens), min_freq=15)], which holds the
    two special tokens and exactly the training tokens that occur at
    least 15 times; the matrix has one row per vocabulary entry; neither
    depends on the validation or test split, which are encoded with that
    vocabulary; and the encoding cell returns both as it found them. *)
Theorem vocabulary_from_training_only (morphs : string → list string) {V : Type}
    (fasttext_simple : TokenEmbedding V) (tr val tst : list string) :
  let ns := preprocess morphs fasttext_simple tr val tst in
  let training_tokens := concat (morphs <$> tr) in
  ns_vocab ns = mkVocab (count_tokens training_tokens) 15 ∧
  ns_embedding ns = set_embedding (ns_vocab ns) fasttext_simple ∧
  length (ns_embedding ns) = len (ns_vocab ns) ∧
  (∀ token, token ∈ idx_to_token (ns_vocab ns) ↔
            token = "<unk>"%string ∨ token = "<pad>"%string ∨
            15 ≤ occurrences token training_tokens) ∧
  X_val ns = encode (ns_vocab ns) (morphs <$> val) ∧
  X_tst ns = encode (ns_vocab ns) (morphs <$> tst) ∧
  (∀ val' tst',
     ns_vocab (preprocess morphs fasttext_simple tr val' tst') = ns_vocab ns ∧
     ns_embedding (preprocess morphs fasttext_simple tr val' tst') = ns_embedding ns) ∧
  (∀ (X1 X2 X3 : list (list string)) (ns0 : Namespace V),
     ns_vocab (final_preprocessing X1 X2 X3 ns0) = ns_vocab ns0 ∧
     ns_embedding (final_preprocessing X1 X2 X3 ns0) = ns_embedding ns0).
Proof.
  intros ns training_tokens. subst ns training_tokens.
  unfold preprocess, final_preprocessing, build_vocab.
  cbn [ns_vocab ns_embedding X_val X_tst]. unfold vocab, counter, tokenize.
  split; [done|]. split; [done|]. split; [apply set_embedding_length|].
  split; [|done].
  intros token. rewrite mkVocab_elem.
  split; (intros [?|[?|Hf]]; [by left|by right; left|right; right]).
  - destruct Hf as [freq [Hc Hm]]. rewrite count_tokens_lookup in Hc.
    case_decide; [done|]. by injection Hc as ->.
  - exists (occurrences token (concat (morphs <$> tr))).
    rewrite count_tokens_lookup. rewrite decide_False by lia. done.
Qed.

(** C9: for a rating file of [n > 0] rows the cell succeeds, and its two
    index arrays partition the rows: the validation array has
    [int(n * .2)] entries without repetition, all among the rows; the
    training array holds exactly the rows that are not validation rows;
    no row is in both; the two lengths add up to [n], and so do the sizes
    of the two frames selected with them. *)
Theorem split_is_partition {A RandomState : Type}
    (rk_interval : nat → RandomState → nat * RandomState)
    (ratings : list A) (st : RandomState) :
  let n := length ratings in
  0 < n →
  ∃ tr val,
    split_indices rk_interval n st = Some (tr, val) ∧
    length val = int_times_02 n ∧
    NoDup val ∧ NoDup tr ∧
    (∀ i, i ∈ val → i < n) ∧
    (∀ i, i ∈ tr ↔ i < n ∧ i ∉ val) ∧
    (∀ i, ¬ (i ∈ tr ∧ i ∈ val)) ∧
    length tr + length val = n ∧
    split_ratings rk_interval ratings st = Some (iloc ratings tr, iloc ratings val) ∧
    length (iloc ratings tr) + length (iloc ratings val) = n.
Proof.
  intros n Hn. unfold split_ratings. fold n.
  unfold split_indices. rewrite val_indices_take by done.
  assert (n / 5 ≤ n) as Hle by (apply Nat.Div0.div_le_upper_bound; lia).
  set (p := (permutation rk_interval n st).1).
  assert (p ≡ₚ seq 0 n) as Hp by apply permutation_perm.
  set (val := take (n / 5) p).
  assert (NoDup val) as Hnd.
  { eapply sublist_NoDup; [|apply sublist_take]. rewrite Hp. apply NoDup_seq. }
  assert (∀ i, i ∈ val → i < n) as Hsub.
  { intros i Hi. apply (subseteq_take (n / 5) p) in Hi. rewrite Hp in Hi.
    apply elem_of_seq in Hi. lia. }
  exists (tr_indices n val), val. cbn [mbind option_bind].
  unfold tr_indices, range. rewrite delete_seq.
  assert (∀ i, i ∈ filter (λ i, i ∉ val) (seq 0 n) ↔ i < n ∧ i ∉ val) as Htr.
  { intros i. rewrite list_elem_of_filter, elem_of_seq.
    split; intros [? ?]; (split; [lia || done|done || lia]). }
  assert (length (filter (λ i, i ∉ val) (seq 0 n)) + length val = n) as Hsum
    by by apply length_complement.
  split; [done|]. split.
  { unfold val, int_times_02. rewrite length_take.
    rewrite (Permutation_length Hp), length_seq.
    by apply Nat.min_l. }
  split; [done|]. split; [apply NoDup_filter, NoDup_seq|].
  split; [done|]. split; [exact Htr|]. split.
  { intros i [Ht Hv]. by apply Htr in Ht as [_ Ht]. }
  split; [exact Hsum|]. split; [done|].
  unfold iloc. rewrite !fancy_index_length; [exact Hsum|..].
  - apply Forall_forall. intros i Hi. by apply Hsub.
  - apply Forall_forall. intros i Hi. by apply Htr in Hi as [Hi _].
Qed.

Lemma split_is_partition_witness :
  let ratings := replicate 13 "review"%string in
  0 < length ratings ∧
  ∃ tr val,
    split_indices lcg (length ratings) 1 = Some (tr, val) ∧
    length val = int_times_02 (length ratings) ∧
    NoDup val ∧ NoDup tr ∧
    (∀ i, i ∈ val → i < length ratings) ∧
    (∀ i, i ∈ tr ↔ i < length ratings ∧ i ∉ val) ∧
    (∀ i, ¬ (i ∈ tr ∧ i ∈ val)) ∧
    length tr + length val = length ratings ∧
    split_ratings lcg ratings 1 = Some (iloc ratings tr, iloc ratings val) ∧
    length (iloc ratings tr) + length (iloc ratings val) = length ratings.
Proof.
  intros ratings.
  assert (0 < length ratings) as Hn by (vm_compute; lia).
  split; [exact Hn|]. exact (split_is_partition lcg ratings 1 Hn).
Defined.

(** C10: a review of more than 30 tokens is encoded as its last 30 token
    ids (the front is cut); a review of fewer than 30 tokens is encoded
    as its token ids followed by the pad value up to length 30. *)
Theorem truncation_front_padding_end (morphs : string → list string)
    (v : Vocab) (document : string) :
  let ids := to_idx v (morphs document) in
  (30 < length (morphs document) →
     encode_review morphs v document = drop (length ids - 30) ids) ∧
  (length (morphs document) < 30 →
     encode_review morphs v document = ids ++ replicate (30 - length ids) value).
Proof.
  intros ids. subst ids. unfold encode_review, to_idx, maxlen. split; intros Hlen.
  - apply pad_row_post_pre_long; [lia|]. rewrite length_fmap. lia.
  - apply pad_row_post_pre_short; [lia|]. rewrite length_fmap. lia.
Qed.

Lemma truncation_front_padding_end_witness :
  let v := vocab demo_sentences in
  (30 < length (char_tokens long_document) ∧
   encode_review char_tokens v long_document =
   drop (length (to_idx v (char_tokens long_document)) - 30)
        (to_idx v (char_tokens long_document))) ∧
  (length (char_tokens "ab") < 30 ∧
   encode_review char_tokens v "ab" =
   to_idx v (char_tokens "ab") ++
   replicate (30 - length (to_idx v (char_tokens "ab"))) value).
Proof.
  intros v.
  assert (30 < length (char_tokens long_document)) as Hlong by (vm_compute; lia).
  assert (length (char_tokens "ab") < 30) as Hshort by (vm_compute; lia).
  split.
  - split; [exact Hlong|].
    exact (proj1 (truncation_front_padding_end char_tokens v long_document) Hlong).
  - split; [exact Hshort|].
    exact (proj2 (truncation_front_padding_end char_tokens v "ab") Hshort).
Defined.
End preprocessing_claims.

Section model_claims.
Import tensorflow morphconv training.
Import model_facts kernel_facts training_facts examples.

Section model.
Context {F : Type} `{FloatOps F}.
Context {OptState : Type}.
Variable he_uniform : nat → nat → nat → list (list (list F)).
Variable glorot_uniform : nat → nat → list (list F).
Variable gradients :
  (gmap string (Tensor F) → F) → gmap string (Tensor F) → string → Tensor F.
Variable adam_update : OptState → string → Tensor F → Tensor F → Tensor F.
Variable adam_next : OptState → OptState.
Variable n_of_classes : nat.
Variable embedding : list (list F).

(** C4: the model has two embedding tables, both initialised to the
    pretrained matrix and both looked up with the ids of the batch; the
    static table is not a trainable variable and the non-static one is;
    one run of the training op returns the static table (and every
    other variable outside the trainable collection) as it was. *)
Theorem static_table_is_frozen :
  let m := MorphConv_init he_uniform glorot_uniform n_of_classes embedding in
  let init := global_variables_initializer (graph m) in
  read2 init (static_embed m) = embedding ∧
  read2 init (non_static_embed m) = embedding ∧
  (∀ r, static_batch m r =
          embedding_lookup (read2 (variables r) (static_embed m)) (X r) ∧
        non_static_batch m r =
          embedding_lookup (read2 (variables r) (non_static_embed m)) (X r)) ∧
  (static_embed m ∉ TRAINABLE_VARIABLES (graph m)) ∧
  (non_static_embed m ∈ TRAINABLE_VARIABLES (graph m)) ∧
  (∀ r opt,
     read2 (training_op gradients adam_update adam_next m r opt).1 (static_embed m) =
     read2 (variables r) (static_embed m)) ∧
  (∀ r opt name,
     name ∉ TRAINABLE_VARIABLES (graph m) →
     (training_op gradients adam_update adam_next m r opt).1 !! name =
     variables r !! name).
Proof.
  intros m init.
  assert (static_embed m ∉ TRAINABLE_VARIABLES (graph m)) as Hstatic
    by by_evaluation.
  split; [reflexivity|]. split; [reflexivity|]. split; [done|].
  split; [exact Hstatic|].
  split; [by_evaluation|].
  split.
  - intros r opt. unfold read2, training_op.
    by rewrite minimize_untouched.
  - intros r opt name Hname. by apply minimize_untouched.
Qed.

(** C5: the three filter banks have window widths 3, 4 and 5 and 100
    output channels each, with a kernel variable of their own; for each
    width the feature map is the maximum over the positions of the sum
    of the two convolution outputs, and the three feature maps are
    concatenated.  For every example of the batch this is the
    specification's feature vector: each bank applied with the same
    weights to the frozen and to the trainable embedding of the
    example.  When the banks' weights have their built shapes and the
    example has at least 5 positions, the vector has 300 entries. *)
Theorem convolution_stage :
  let m := MorphConv_init he_uniform glorot_uniform n_of_classes embedding in
  (kernel_size (tri_gram m), filters (tri_gram m)) = (3, 100) ∧
  (kernel_size (tetra_gram m), filters (tetra_gram m)) = (4, 100) ∧
  (kernel_size (penta_gram m), filters (penta_gram m)) = (5, 100) ∧
  NoDup [conv_kernel (tri_gram m); conv_kernel (tetra_gram m);
         conv_kernel (penta_gram m)] ∧
  (∀ r, fmap_3 m r = reduce_max_axis1 (tadd (static_3 m r) (non_static_3 m r)) ∧
        fmap_4 m r = reduce_max_axis1 (tadd (static_4 m r) (non_static_4 m r)) ∧
        fmap_5 m r = reduce_max_axis1 (tadd (static_5 m r) (non_static_5 m r)) ∧
        flattened m r = concat_last3 (fmap_3 m r) (fmap_4 m r) (fmap_5 m r)) ∧
  (∀ r, flattened m r = features_spec m (variables r) <$> X r) ∧
  (∀ st ids,
     bank_shaped (tri_gram m) st → bank_shaped (tetra_gram m) st →
     bank_shaped (penta_gram m) st → 5 ≤ length ids →
     length (features_spec m st ids) = 300).
Proof.
  intros m.
  split; [reflexivity|]. split; [reflexivity|]. split; [reflexivity|].
  split; [by_evaluation|].
  split; [done|]. split.
  - intros r. subst m. cbn [flattened MorphConv_init].
    unfold features_spec, bank_features.
    cbn. unfold concat_last3, reduce_max_axis1, tadd, embedding_lookup.
    rewrite <-!list_fmap_compose.
    rewrite !zip_with_fmap_same. rewrite <-!list_fmap_compose.
    rewrite !zip_with_fmap_same.
    apply list_fmap_ext. intros i ids _. unfold compose.
    by rewrite <-app_assoc.
  - intros st ids H3 H4 H5 Hlen. unfold features_spec.
    rewrite !length_app.
    rewrite !bank_features_length; try done;
      rewrite ?length_fmap; try done; cbn; lia.
Qed.

(** C6: [self.__score] is the dropped-out Dense output (rate 0.5) when
    the training flag is fed true and the Dense output itself when it
    is fed false; so two runs with the flag false on the same variables
    and the same input rows give the same logits and the same arg-max
    predictions (also through [predict]), whatever the labels and the
    noise. *)
Theorem dropout_only_when_training :
  let m := MorphConv_init he_uniform glorot_uniform n_of_classes embedding in
  (∀ r, self_score m r =
        if is_training r
        then nn_dropout (of_Q (1 - (1 # 2))) (noise r) (score m r)
        else score m r) ∧
  (∀ st X y1 y2 u1 u2,
     let r1 := {| variables := st; X := X; y := y1;
                  is_training := false; noise := u1 |} in
     let r2 := {| variables := st; X := X; y := y2;
                  is_training := false; noise := u2 |} in
     self_score m r1 = score m r1 ∧
     self_score m r1 = self_score m r2 ∧
     prediction m r1 = prediction m r2 ∧
     predict m st X false u1 = predict m st X false u2).
Proof.
  intros m. split; [done|]. intros st X y1 y2 u1 u2 r1 r2. by repeat split.
Qed.

(** C7, the code at any run: the graph's regularization collection is
    empty when the loss is built, so [reg_term] is the sum of no terms
    and [total_loss] is the cross-entropy plus zero; the L2 penalty
    (coefficient 0.7) on the Dense kernel exists, but only in the
    layer's own list of losses. *)
Theorem regularization_term_is_zero :
  let m := MorphConv_init he_uniform glorot_uniform n_of_classes embedding in
  REGULARIZATION_LOSSES (graph m) = [] ∧
  (∀ st, (λ loss, loss st) <$> losses (dense_layer (output_dense m)) =
         [match st !! dense_kernel (output_dense m) with
          | Some w => l2 (7 # 10) w
          | None => f0
          end]) ∧
  (∀ r, ce_loss m r = sparse_softmax_cross_entropy (y r) (self_score m r) ∧
        reg_term m r = f0 ∧
        total_loss m r = fadd (ce_loss m r) f0).
Proof. intros m. by repeat split. Qed.
End model.

Section whole_training.
Context {F : Type} `{FloatOps F}.
Context {OptState RandomState : Type}.
Variable he_uniform : nat → nat → nat → list (list (list F)).
Variable glorot_uniform : nat → nat → list (list F).
Variable gradients :
  (gmap string (Tensor F) → F) → gmap string (Tensor F) → string → Tensor F.
Variable adam_update : OptState → string → Tensor F → Tensor F → Tensor F.
Variable adam_next : OptState → OptState.
Variable shuffle :
  list (list nat * nat) → RandomState → list (list nat * nat) * RandomState.
Variable random_uniform : nat → nat → RandomState → list (list F) * RandomState.
Variable n_of_classes : nat.
Variable embedding : list (list F).
Variables (X_tr X_val : list (list nat)) (y_tr y_val : list nat).

(** The training of cell 17 as a whole, from a new session: however many
    epochs it runs, when it ends the static table still is the pretrained
    matrix. *)
Corollary static_table_after_training (n fuel : nat) (opt : OptState)
    (rng : RandomState) s' res :
  let m := MorphConv_init he_uniform glorot_uniform n_of_classes embedding in
  run_epochs gradients adam_update adam_next shuffle random_uniform m n_of_classes
             X_tr X_val y_tr y_val n fuel (new_session m opt rng) [] [] =
    Some (s', res) →
  read2 (sess_variables s') (static_embed m) = embedding.
Proof.
  intros m Hrun.
  assert (static_embed m ∉ TRAINABLE_VARIABLES (graph m)) as Hnot by by_evaluation.
  pose proof (run_epochs_untouched gradients adam_update adam_next shuffle
                random_uniform m n_of_classes X_tr X_val y_tr y_val n fuel
                (static_embed m) Hnot _ _ _ _ _ Hrun) as Hsame.
  unfold read2. rewrite Hsame. reflexivity.
Qed.
End whole_training.

Lemma static_table_is_frozen_witness :
  ("embedding_layer/static"%string ∉ TRAINABLE_VARIABLES (graph demo_model)) ∧
  (training_op demo_gradients demo_adam id demo_model demo_run ()).1
    !! "embedding_layer/static"%string =
  variables demo_run !! "embedding_layer/static"%string.
Proof.
  assert ("embedding_layer/static"%string ∉ TRAINABLE_VARIABLES (graph demo_model))
    as Hn by by_evaluation.
  split; [exact Hn|].
  exact (proj2 (proj2 (proj2 (proj2 (proj2 (proj2
    (static_table_is_frozen he_ones glorot_ones demo_gradients demo_adam id 2
       demo_embedding)))))) demo_run () "embedding_layer/static"%string Hn).
Defined.

Lemma convolution_stage_witness :
  bank_shaped (tri_gram demo_model) (variables demo_run) ∧
  bank_shaped (tetra_gram demo_model) (variables demo_run) ∧
  bank_shaped (penta_gram demo_model) (variables demo_run) ∧
  5 ≤ length demo_ids ∧
  length (features_spec demo_model (variables demo_run) demo_ids) = 300.
Proof.
  assert (bank_shaped (tri_gram demo_model) (variables demo_run)) as H3.
  { split; [by_evaluation|by vm_compute]. }
  assert (bank_shaped (tetra_gram demo_model) (variables demo_run)) as H4.
  { split; [by_evaluation|by vm_compute]. }
  assert (bank_shaped (penta_gram demo_model) (variables demo_run)) as H5.
  { split; [by_evaluation|by vm_compute]. }
  assert (5 ≤ length demo_ids) as Hlen by (vm_compute; lia).
  repeat (split; [assumption|]).
  exact (proj2 (proj2 (proj2 (proj2 (proj2 (proj2
    (convolution_stage he_ones glorot_ones 2 demo_embedding))))))
    (variables demo_run) demo_ids H3 H4 H5 Hlen).
Defined.

(** The same at a concrete run (exact rational arithmetic, every initial
    weight 1): the Dense kernel has 600 entries, so the L2 penalty is
    [0.7 * 600 = 420], yet [reg_term] is 0 and [total_loss] is the
    cross-entropy alone. *)
Example objective_omits_l2_penalty :
  let w := glorot_ones 300 2 in
  variables demo_run !! dense_kernel (output_dense demo_model) = Some (T2 w) ∧
  Qred (l2 (7 # 10) (T2 w)) = 420%Q ∧
  Qred (reg_term demo_model demo_run) = 0%Q ∧
  Qred (total_loss demo_model demo_run) = Qred (ce_loss demo_model demo_run).
Proof. by vm_compute. Qed.

Section loop.
Context {F : Type} `{FloatOps F}.
Context {OptState RandomState : Type}.
Variable gradients :
  (gmap string (Tensor F) → F) → gmap string (Tensor F) → string → Tensor F.
Variable adam_update : OptState → string → Tensor F → Tensor F → Tensor F.
Variable adam_next : OptState → OptState.
Variable shuffle :
  list (list nat * nat) → RandomState → list (list nat * nat) * RandomState.
Variable random_uniform : nat → nat → RandomState → list (list F) * RandomState.
Variable m : MorphConv (F := F).
Variable n_of_classes : nat.
Variables (X_tr X_val : list (list nat)) (y_tr y_val : list nat).

Local Abbreviation Session :=
  (Session (F := F) (OptState := OptState) (RandomState := RandomState)).
Local Abbreviation run_training :=
  (run_training gradients adam_update adam_next random_uniform m n_of_classes).
Local Abbreviation run_validation :=
  (run_validation (OptState := OptState) (RandomState := RandomState) m).
Local Abbreviation losses_tr :=
  (losses_tr gradients adam_update adam_next random_uniform m n_of_classes).
Local Abbreviation losses_val :=
  (losses_val (OptState := OptState) (RandomState := RandomState) m).
Local Abbreviation epoch :=
  (epoch gradients adam_update adam_next shuffle random_uniform m n_of_classes
         X_tr X_val y_tr y_val).

(** C8: in every epoch, each phase runs one batch per delivery of its
    iterator and ends at the run that raises the end-of-data error,
    with the iterator empty: while the runs allowed ([fuel]) do not
    exceed the number of batches the loop has not ended, and with one
    more it has ended after exactly one run per batch.  The value
    accumulated is the sum of the per-batch losses, and the loss the
    epoch reports for a phase is that sum divided by the number of
    batches (both phases having at least one batch). *)
Theorem phases_end_at_exhaustion (s : Session) (fuel : nat) :
  let s_tr := run_tr_initializer shuffle X_tr y_tr s in
  let bs_tr := tr_iterator s_tr in
  let ls_tr := (losses_tr bs_tr s_tr).1 in
  let s_val := run_val_initializer X_val y_val (losses_tr bs_tr s_tr).2 in
  let bs_val := val_iterator s_val in
  let ls_val := (losses_val bs_val s_val).1 in
  let s_end := (losses_val bs_val s_val).2 in
  length ls_tr = length bs_tr ∧ length ls_val = length bs_val ∧
  (fuel ≤ length bs_tr →
     while_true run_training fuel s_tr (of_nat 0) 0 = None) ∧
  (length bs_tr < fuel →
     while_true run_training fuel s_tr (of_nat 0) 0 =
     Some ((losses_tr bs_tr s_tr).2, foldl fadd (of_nat 0) ls_tr, length bs_tr) ∧
     tr_iterator (losses_tr bs_tr s_tr).2 = []) ∧
  (fuel ≤ length bs_val →
     while_true run_validation fuel s_val (of_nat 0) 0 = None) ∧
  (length bs_val < fuel →
     while_true run_validation fuel s_val (of_nat 0) 0 =
     Some (s_end, foldl fadd (of_nat 0) ls_val, length bs_val) ∧
     val_iterator s_end = []) ∧
  (length bs_tr < fuel → length bs_val < fuel → bs_tr ≠ [] → bs_val ≠ [] →
     epoch fuel s = Some (s_end, inr (mean_loss ls_tr, mean_loss ls_val))).
Proof.
  intros s_tr bs_tr ls_tr s_val bs_val ls_val s_end.
  pose proof (while_true_training gradients adam_update adam_next random_uniform
                m n_of_classes bs_tr s_tr (of_nat 0) 0 eq_refl) as [Htn Hts].
  pose proof (while_true_validation m bs_val s_val (of_nat 0) 0 eq_refl) as [Hvn Hvs].
  pose proof (losses_tr_facts gradients adam_update adam_next random_uniform
                m n_of_classes bs_tr s_tr) as (Hlt & _ & Htr_end & _).
  pose proof (losses_val_facts (OptState := OptState) (RandomState := RandomState)
                m bs_val s_val) as (Hlv & _ & Hval_end & _).
  split; [exact Hlt|]. split; [exact Hlv|].
  split; [apply Htn|]. split.
  { intros Hf. split; [by apply Hts|by apply Htr_end]. }
  split; [apply Hvn|]. split.
  { intros Hf. split; [by apply Hvs|by apply Hval_end]. }
  intros Hft Hfv Hnt Hnv. unfold training.epoch.
  fold s_tr. rewrite (Hts fuel Hft). cbn [mbind option_bind].
  fold bs_tr s_val. rewrite (Hvs fuel Hfv). cbn [mbind option_bind].
  assert (length bs_tr ≠ 0) as Hzt by (intros Hz; by apply Hnt, nil_length_inv).
  assert (length bs_val ≠ 0) as Hzv by (intros Hz; by apply Hnv, nil_length_inv).
  unfold divide. cbn [plus]. rewrite (decide_False _ _ Hzt), (decide_False _ _ Hzv).
  unfold mean_loss, ls_tr, ls_val. by rewrite Hlt, Hlv.
Qed.
End loop.

Lemma phases_end_at_exhaustion_witness :
  let run_tr := run_training demo_gradients demo_adam id demo_uniform demo_model 2 in
  let s_tr := run_tr_initializer demo_shuffle demo_X_tr demo_y_tr demo_session in
  let bs_tr := tr_iterator s_tr in
  let after_tr :=
    losses_tr demo_gradients demo_adam id demo_uniform demo_model 2 bs_tr s_tr in
  let s_val := run_val_initializer demo_X_val demo_y_val after_tr.2 in
  let bs_val := val_iterator s_val in
  let after_val := losses_val demo_model bs_val s_val in
  (length bs_tr < 2 ∧ length bs_val < 2 ∧ bs_tr ≠ [] ∧ bs_val ≠ []) ∧
  epoch demo_gradients demo_adam id demo_shuffle demo_uniform demo_model 2
        demo_X_tr demo_X_val demo_y_tr demo_y_val 2 demo_session =
  Some (after_val.2, inr (mean_loss after_tr.1, mean_loss after_val.1)) ∧
  (1 ≤ length bs_tr ∧ while_true run_tr 1 s_tr (of_nat 0) 0 = None).
Proof.
  intros run_tr s_tr bs_tr after_tr s_val bs_val after_val.
  assert (length bs_tr < 2) as Ht by (vm_compute; lia).
  assert (length bs_val < 2) as Hv by (vm_compute; lia).
  assert (bs_tr ≠ []) as Hnt by (vm_compute; discriminate).
  assert (bs_val ≠ []) as Hnv by (vm_compute; discriminate).
  assert (1 ≤ length bs_tr) as H1 by (vm_compute; lia).
  split; [by repeat split|]. split.
  - exact (proj2 (proj2 (proj2 (proj2 (proj2 (proj2
      (phases_end_at_exhaustion demo_gradients demo_adam id demo_shuffle demo_uniform
         demo_model 2 demo_X_tr demo_X_val demo_y_tr demo_y_val demo_session 2))))))
      Ht Hv Hnt Hnv).
  - split; [exact H1|].
    exact (proj1 (proj2 (proj2
      (phases_end_at_exhaustion demo_gradients demo_adam id demo_shuffle demo_uniform
         demo_model 2 demo_X_tr demo_X_val demo_y_tr demo_y_val demo_session 1))) H1).
Defined.
End model_claims.

(** * Further properties *)

(** ** The split *)

Module split_more.
Import numpy split numpy_facts split_facts examples.

Lemma fancy_index_all {A} (arr : list A) :
  fancy_index arr (seq 0 (length arr)) = arr.
Proof.
  unfold fancy_index. induction arr as [|a arr IH] using rev_ind; [done|].
  rewrite length_app. simpl. rewrite seq_app, omap_app. simpl.
  rewrite lookup_app_r, Nat.sub_diag by lia. simpl. f_equal.
  rewrite <-IH at 2. apply list_omap_ext.
  apply Forall2_same_length_lookup_2; [done|].
  intros i x y Hx Hy. assert (x = y) as -> by congruence.
  apply lookup_seq in Hy as [-> ?]. by rewrite lookup_app_l.
Qed.

Lemma fancy_index_sublist {A} (arr : list A) (P : nat → Prop) `{∀ i, Decision (P i)}
    (idx : list nat) :
  fancy_index arr (filter P idx) `sublist_of` fancy_index arr idx.
Proof.
  unfold fancy_index. induction idx as [|i idx IH]; [done|].
  rewrite filter_cons. simpl. destruct (decide (P i)); simpl.
  - destruct (arr !! i); [by apply sublist_skip|done].
  - destruct (arr !! i); [by apply sublist_cons|done].
Qed.

Lemma complement_perm (n : nat) (val : list nat) :
  NoDup val → (∀ i, i ∈ val → i < n) →
  filter (λ i, i ∉ val) (seq 0 n) ++ val ≡ₚ seq 0 n.
Proof.
  intros Hnd Hlt.
  rewrite <-(filter_app_complement (λ i, i ∉ val) (seq 0 n)) at 2.
  apply Permutation_app_head, NoDup_Permutation; [done|apply NoDup_filter, NoDup_seq|].
  intros i. rewrite list_elem_of_filter, elem_of_seq.
  split; [intros Hi; split; [tauto|specialize (Hlt i Hi); lia]|].
  intros [Hi _]. destruct (decide (i ∈ val)); tauto.
Qed.

Section cell_3.
Context {A RandomState : Type}.
Variable rk_interval : nat → RandomState → nat * RandomState.

Lemma split_ratings_eq (ratings : list A) (st : RandomState) :
  0 < length ratings →
  let n := length ratings in
  let val := take (n / 5) (permutation rk_interval n st).1 in
  split_ratings rk_interval ratings st =
  Some (iloc ratings (filter (λ i, i ∉ val) (seq 0 n)), iloc ratings val).
Proof.
  intros Hn n val. unfold split_ratings, split_indices.
  rewrite val_indices_take by done. simpl.
  unfold tr_indices, range. by rewrite delete_seq.
Qed.

Lemma drawn_rows (n : nat) (st : RandomState) :
  let val := take (n / 5) (permutation rk_interval n st).1 in
  NoDup val ∧ ∀ i, i ∈ val → i < n.
Proof.
  intros val.
  assert ((permutation rk_interval n st).1 ≡ₚ seq 0 n) as Hp by apply permutation_perm.
  split.
  - eapply sublist_NoDup; [|apply sublist_take]. rewrite Hp. apply NoDup_seq.
  - intros i Hi. apply subseteq_take in Hi. rewrite Hp in Hi.
    apply elem_of_seq in Hi. lia.
Qed.
End cell_3.
End split_more.

Section split_properties.
Import numpy split numpy_facts split_facts split_more examples.
Context {A RandomState : Type}.
Variable rk_interval : nat → RandomState → nat * RandomState.

(** X1: the split loses and repeats no row: for a rating file with at
    least one row, the training frame followed by the validation frame
    is a rearrangement of the rows of the file. *)
Theorem split_keeps_every_row (ratings : list A) (st : RandomState) :
  0 < length ratings →
  ∃ ratings_tr ratings_val,
    split_ratings rk_interval ratings st = Some (ratings_tr, ratings_val) ∧
    ratings_tr ++ ratings_val ≡ₚ ratings.
Proof.
  intros Hn. rewrite split_ratings_eq by done.
  destruct (drawn_rows rk_interval (length ratings) st) as [Hnd Hlt].
  eexists _, _. split; [done|].
  unfold iloc, fancy_index. rewrite <-omap_app.
  rewrite complement_perm by done.
  change (fancy_index ratings (seq 0 (length ratings)) ≡ₚ ratings).
  by rewrite fancy_index_all.
Qed.

(** X2: the training frame keeps the order of the file: its rows are
    the rows of the file with the validation rows left out, nothing
    moved. *)
Theorem training_rows_keep_file_order (ratings : list A) (st : RandomState) :
  0 < length ratings →
  ∃ ratings_tr ratings_val,
    split_ratings rk_interval ratings st = Some (ratings_tr, ratings_val) ∧
    ratings_tr `sublist_of` ratings.
Proof.
  intros Hn. rewrite split_ratings_eq by done.
  eexists _, _. split; [done|].
  unfold iloc.
  pose proof (fancy_index_sublist ratings
    (λ i, i ∉ take (length ratings / 5) (permutation rk_interval (length ratings) st).1)
    (seq 0 (length ratings))) as Hsub.
  by rewrite fancy_index_all in Hsub.
Qed.

(** X3: a rating file of one to four rows has [int(n * .2) = 0]
    validation rows: the training frame is the whole file and the
    validation frame is empty. *)
Theorem small_file_has_no_validation_rows (ratings : list A) (st : RandomState) :
  0 < length ratings < 5 →
  split_ratings rk_interval ratings st = Some (ratings, []).
Proof.
  intros [Hn H5]. rewrite split_ratings_eq by done.
  rewrite Nat.div_small by done. rewrite take_0.
  assert (filter (λ i, i ∉ []) (seq 0 (length ratings)) = seq 0 (length ratings)) as ->.
  { induction (seq 0 (length ratings)) as [|i l IH]; [done|].
    rewrite filter_cons_True by apply not_elem_of_nil. by rewrite IH. }
  unfold iloc. by rewrite fancy_index_all.
Qed.
End split_properties.

Lemma split_keeps_every_row_witness :
  let ratings := ["a"; "b"; "c"; "d"; "e"; "f"; "g"]%string in
  0 < length ratings ∧
  ∃ ratings_tr ratings_val,
    split.split_ratings examples.lcg ratings 1 = Some (ratings_tr, ratings_val) ∧
    ratings_tr ++ ratings_val ≡ₚ ratings.
Proof.
  intros ratings.
  assert (0 < length ratings) as Hn by (vm_compute; lia).
  split; [exact Hn|]. exact (split_keeps_every_row examples.lcg ratings 1 Hn).
Defined.

Lemma training_rows_keep_file_order_witness :
  let ratings := ["a"; "b"; "c"; "d"; "e"; "f"; "g"]%string in
  0 < length ratings ∧
  ∃ ratings_tr ratings_val,
    split.split_ratings examples.lcg ratings 2 = Some (ratings_tr, ratings_val) ∧
    ratings_tr `sublist_of` ratings.
Proof.
  intros ratings.
  assert (0 < length ratings) as Hn by (vm_compute; lia).
  split; [exact Hn|]. exact (training_rows_keep_file_order examples.lcg ratings 2 Hn).
Defined.

Lemma small_file_has_no_validation_rows_witness :
  let ratings := ["a"; "b"; "c"]%string in
  0 < length ratings < 5 ∧
  split.split_ratings examples.lcg ratings 1 = Some (ratings, []).
Proof.
  intros ratings.
  assert (0 < length ratings < 5) as Hn by (vm_compute; lia).
  split; [exact Hn|]. exact (small_file_has_no_validation_rows examples.lcg ratings 1 Hn).
Defined.

(** ** Vocabulary and encoding *)

Module vocab_more.
Import python gluonnlp preprocessing invariants sort_facts vocab_facts preprocessing_facts.

Lemma occurrences_filter_ne (t t' : string) (l : list string) :
  t' ≠ t → occurrences t' (filter (λ x, x ≠ t) l) = occurrences t' l.
Proof.
  intros Hne. unfold occurrences. rewrite list_filter_filter. f_equal.
  apply list_filter_iff. intros x. split; [tauto|]. intros ->. done.
Qed.

Lemma occurrences_split (t : string) (l : list string) :
  length l = occurrences t l + length (filter (λ x, x ≠ t) l).
Proof.
  unfold occurrences.
  by rewrite <-(Permutation_length (filter_app_complement (λ x, x = t) l)), length_app.
Qed.

(** Tokens that are pairwise distinct and occur [k] times each take up
    [k] places each. *)
Lemma distinct_tokens_bound (k : nat) (ts : list string) :
  NoDup ts → ∀ l, (∀ t, t ∈ ts → k ≤ occurrences t l) → k * length ts ≤ length l.
Proof.
  induction 1 as [|t ts Hnotin Hnd IH]; intros l Hocc; simpl; [lia|].
  rewrite (occurrences_split t l).
  assert (k ≤ occurrences t l) by (apply Hocc; left).
  assert (k * length ts ≤ length (filter (λ x, x ≠ t) l)).
  { apply IH. intros t' Ht'. rewrite occurrences_filter_ne.
    - apply Hocc. by right.
    - intros ->. done. }
  lia.
Qed.

Lemma counter_lookup (X_tr : list (list string)) (token : string) (freq : nat) :
  counter X_tr !! token = Some freq ↔
  freq = occurrences token (concat X_tr) ∧ 0 < freq.
Proof.
  unfold counter. rewrite count_tokens_lookup.
  destruct (decide (occurrences token (concat X_tr) = 0)) as [H0|H0].
  - split; [done|]. intros [-> ?]. lia.
  - split; [intros [= <-]; lia|]. by intros [-> _].
Qed.

Lemma frequent_tokens_elem (c : gmap string nat) (min_freq : nat) (token : string) :
  token ∈ frequent_tokens c min_freq ↔
  ∃ freq, c !! token = Some freq ∧ min_freq ≤ freq ∧
          token ≠ "<pad>"%string ∧ token ≠ "<unk>"%string.
Proof.
  unfold frequent_tokens. rewrite list_elem_of_fmap. split.
  - intros [[t f] [-> [Hp Hin]%list_elem_of_filter]]. simpl in *.
    apply token_freqs_elem in Hin. eauto.
  - intros (freq & Hc & Hf & Hp & Hu). exists (token, freq). split; [done|].
    apply list_elem_of_filter. split; [done|]. by apply token_freqs_elem.
Qed.

Lemma frequent_tokens_nodup (c : gmap string nat) (min_freq : nat) :
  NoDup (frequent_tokens c min_freq).
Proof.
  unfold frequent_tokens.
  eapply sublist_NoDup; [apply token_freqs_nodup|].
  apply fmap_sublist, sublist_filter.
Qed.

Lemma StronglySorted_filter {A} (R : relation A) (P : A → Prop)
    `{∀ x, Decision (P x)} (l : list A) :
  StronglySorted R l → StronglySorted R (filter P l).
Proof.
  induction 1 as [|a l Hs IH Hall]; [constructor|].
  rewrite filter_cons. destruct (decide (P a)); [|done].
  constructor; [done|]. apply Forall_forall. intros b [_ Hb]%list_elem_of_filter.
  by eapply Forall_forall in Hall.
Qed.

Lemma StronglySorted_lookup_lt {A} (R : relation A) (l : list A) :
  StronglySorted R l →
  ∀ i j a b, i < j → l !! i = Some a → l !! j = Some b → R a b.
Proof.
  induction 1 as [|x l Hs IH Hall]; intros i j a b Hij Hi Hj; [done|].
  destruct j as [|j]; [lia|]. simpl in Hj. destruct i as [|i]; simpl in Hi.
  - injection Hi as ->. eapply Forall_forall in Hall; [done|].
    by eapply list_elem_of_lookup_2.
  - apply (IH i j); [lia|done..].
Qed.

(** The tokens after the two special ones come with their counts, and
    the counts fall along the list. *)
Lemma frequent_tokens_lookup (c : gmap string nat) (min_freq i j : nat) (ti tj : string) :
  i ≤ j →
  frequent_tokens c min_freq !! i = Some ti →
  frequent_tokens c min_freq !! j = Some tj →
  ∃ fi fj, c !! ti = Some fi ∧ c !! tj = Some fj ∧ fj ≤ fi.
Proof.
  unfold frequent_tokens. intros Hij Hi Hj.
  apply list_lookup_fmap_Some in Hi as ([ti' fi] & -> & Hi).
  apply list_lookup_fmap_Some in Hj as ([tj' fj] & -> & Hj).
  exists fi, fj. simpl.
  pose proof (list_elem_of_lookup_2 _ _ _ Hi) as [_ Hini]%list_elem_of_filter.
  pose proof (list_elem_of_lookup_2 _ _ _ Hj) as [_ Hinj]%list_elem_of_filter.
  apply token_freqs_elem in Hini, Hinj. split; [done|]. split; [done|].
  destruct (decide (i = j)) as [->|Hne].
  - rewrite Hi in Hj. by injection Hj as _ ->.
  - pose proof (StronglySorted_filter _
      (λ p : string * nat, min_freq ≤ p.2 ∧ p.1 ≠ "<pad>"%string ∧ p.1 ≠ "<unk>"%string)
      _ (token_freqs_sorted c)) as Hs.
    apply (StronglySorted_lookup_lt _ _ Hs i j _ _ ltac:(lia) Hi Hj).
Qed.
End vocab_more.

Section preprocessing_properties.
Import python keras_preprocessing gluonnlp preprocessing invariants.
Import padding_facts vocab_facts preprocessing_facts vocab_more examples more_examples.

(** X4: the two halves of the vocabulary built in cell 6 are inverse to
    each other on the tokens it holds: the id of the token at position
    [i] is [i], the token at the id of a listed token is that token, and
    two listed tokens with the same id are the same token. *)
Theorem vocabulary_round_trip (X_tr : list (list string)) :
  let v := vocab X_tr in
  (∀ i token, idx_to_token v !! i = Some token → getitem (token_to_idx v) token = i) ∧
  (∀ token, token ∈ idx_to_token v →
     idx_to_token v !! getitem (token_to_idx v) token = Some token) ∧
  (∀ t1 t2, t1 ∈ idx_to_token v → t2 ∈ idx_to_token v →
     getitem (token_to_idx v) t1 = getitem (token_to_idx v) t2 → t1 = t2).
Proof.
  intros v. pose proof (vocab_wf X_tr) as Hwf. fold v in Hwf.
  assert (∀ token, token ∈ idx_to_token v →
     idx_to_token v !! getitem (token_to_idx v) token = Some token) as Hback.
  { intros token [i Hi]%list_elem_of_lookup_1. by rewrite (getitem_known v token i). }
  split; [intros i token Hi; by apply getitem_known|]. split; [done|].
  intros t1 t2 H1 H2 Heq. apply Hback in H1, H2. rewrite Heq in H1. congruence.
Qed.

(** X5: which tokens get the two special ids.  A token is looked up as
    the pad value 1 exactly when it is the text "<pad>"; it is looked
    up as 0 exactly when it is the text "<unk>" or occurs fewer than 15
    times in the training split (and is not "<pad>").  Every other
    token gets an id from 2 on. *)
Theorem special_ids_characterised (X_tr : list (list string)) (token : string) :
  let v := vocab X_tr in
  let id := getitem (token_to_idx v) token in
  (id = value ↔ token = "<pad>"%string) ∧
  (id = UNK_IDX ↔
     token = "<unk>"%string ∨
     (token ≠ "<pad>"%string ∧ occurrences token (concat X_tr) < 15)) ∧
  (2 ≤ id ↔
     token ≠ "<unk>"%string ∧ token ≠ "<pad>"%string ∧
     15 ≤ occurrences token (concat X_tr)).
Proof.
  intros v id. pose proof (vocab_wf X_tr) as Hwf. fold v in Hwf.
  pose proof (mkVocab_tokens (counter X_tr) 15) as Htok. fold (vocab X_tr) in Htok. fold v in Htok.
  assert (idx_to_token v !! 0 = Some "<unk>"%string) as H0 by by rewrite Htok.
  assert (idx_to_token v !! 1 = Some "<pad>"%string) as H1 by by rewrite Htok.
  assert (token ∈ frequent_tokens (counter X_tr) 15 ↔
          token ≠ "<unk>"%string ∧ token ≠ "<pad>"%string ∧
          15 ≤ occurrences token (concat X_tr)) as Hfreq.
  { rewrite frequent_tokens_elem. split.
    - intros (freq & [-> _]%counter_lookup & ? & ? & ?). done.
    - intros (? & ? & ?). exists (occurrences token (concat X_tr)).
      rewrite counter_lookup. repeat split; (done || lia). }
  destruct (decide (token = "<unk>"%string)) as [Hu|Hu].
  { assert (id = 0) as Hid by (apply getitem_known; [done|by rewrite Hu]).
    assert (token ≠ "<pad>"%string) by by rewrite Hu.
    rewrite Hid. unfold value, UNK_IDX. intuition lia. }
  destruct (decide (token = "<pad>"%string)) as [Hp|Hp].
  { assert (id = 1) as Hid by (apply getitem_known; [done|by rewrite Hp]).
    rewrite Hid. unfold value, UNK_IDX. intuition lia. }
  destruct (decide (15 ≤ occurrences token (concat X_tr))) as [Hocc|Hocc].
  - assert (token ∈ frequent_tokens (counter X_tr) 15) as [i Hi]%list_elem_of_lookup_1
      by (apply Hfreq; done).
    assert (id = 2 + i) as Hid.
    { apply getitem_known; [done|]. rewrite Htok. exact Hi. }
    rewrite Hid. unfold value, UNK_IDX. intuition lia.
  - assert (id = 0) as Hid.
    { apply getitem_unknown; [done|]. rewrite Htok. intros Hin.
      apply elem_of_app in Hin as [Hin|Hin].
      - apply elem_of_cons in Hin as [?|Hin]; [done|].
        apply elem_of_cons in Hin as [?|Hin]; [done|]. by apply elem_of_nil in Hin.
      - apply Hfreq in Hin. tauto. }
    rewrite Hid. unfold value, UNK_IDX. intuition lia.
Qed.

(** X6: the vocabulary is small when the training split is: each of the
    [len(vocab) - 2] tokens other than the two special ones takes up at
    least 15 places of the training tokens. *)
Theorem vocabulary_size_bound (X_tr : list (list string)) :
  15 * (len (vocab X_tr) - 2) ≤ length (concat X_tr).
Proof.
  unfold len, vocab. rewrite mkVocab_tokens, length_app.
  replace (length ["<unk>"%string; "<pad>"%string] +
           length (frequent_tokens (counter X_tr) 15) - 2)
    with (length (frequent_tokens (counter X_tr) 15))
    by (cbn [length]; lia).
  apply distinct_tokens_bound; [apply frequent_tokens_nodup|].
  intros t (freq & [-> _]%counter_lookup & ? & _)%frequent_tokens_elem. done.
Qed.

(** X7: from id 2 on, the ids follow the falling frequency of the
    tokens in the training split: a token with a smaller id occurs at
    least as often as one with a larger id. *)
Theorem ids_follow_falling_frequency (X_tr : list (list string)) (i j : nat)
    (ti tj : string) :
  2 ≤ i → i ≤ j →
  idx_to_token (vocab X_tr) !! i = Some ti →
  idx_to_token (vocab X_tr) !! j = Some tj →
  occurrences tj (concat X_tr) ≤ occurrences ti (concat X_tr).
Proof.
  unfold vocab. rewrite mkVocab_tokens. intros H2 Hij Hi Hj.
  rewrite lookup_app_r in Hi, Hj by (simpl; lia). simpl in Hi, Hj.
  destruct (frequent_tokens_lookup _ _ (i - 2) (j - 2) ti tj ltac:(lia) Hi Hj)
    as (fi & fj & [-> _]%counter_lookup & [-> _]%counter_lookup & Hle).
  done.
Qed.

Lemma vocabulary_round_trip_witness :
  idx_to_token (vocab demo_sentences) !! 2 = Some "good"%string ∧
  getitem (token_to_idx (vocab demo_sentences))
    "good" = 2.
Proof.
  assert (idx_to_token (vocab demo_sentences) !! 2 =
          Some "good"%string) as Hi by (vm_compute; reflexivity).
  split; [exact Hi|].
  exact (proj1 (vocabulary_round_trip demo_sentences) 2 "good"%string Hi).
Defined.

Lemma ids_follow_falling_frequency_witness :
  let X_tr := ranked_sentences in
  2 ≤ 2 ∧ 2 ≤ 3 ∧
  idx_to_token (vocab X_tr) !! 2 = Some "good"%string ∧
  idx_to_token (vocab X_tr) !! 3 = Some "fine"%string ∧
  occurrences "fine" (concat X_tr) ≤ occurrences "good" (concat X_tr).
Proof.
  intros X_tr.
  assert (idx_to_token (vocab X_tr) !! 2 = Some "good"%string) as Hi
    by (vm_compute; reflexivity).
  assert (idx_to_token (vocab X_tr) !! 3 = Some "fine"%string) as Hj
    by (vm_compute; reflexivity).
  assert (2 ≤ 2) as H2 by lia. assert (2 ≤ 3) as H3 by lia.
  repeat (split; [assumption|]).
  exact (ids_follow_falling_frequency X_tr 2 3 "good"%string "fine"%string H2 H3 Hi Hj).
Defined.


(** X8: every id of every encoded row, pad value included, is the
    position of a row of the embedding matrix made in cell 7, so the
    embedding lookup of the model never reads outside the matrix. *)
Theorem encoded_ids_have_embedding_rows (morphs : string → list string) {V : Type}
    (fasttext_simple : TokenEmbedding V) (tr val tst : list string) :
  let ns := preprocess morphs fasttext_simple tr val tst in
  Forall (Forall (λ i, is_Some (ns_embedding ns !! i)))
         (X_tr ns ++ X_val ns ++ X_tst ns).
Proof.
  intros ns. subst ns. unfold preprocess, final_preprocessing, build_vocab.
  cbn [X_tr X_val X_tst ns_vocab ns_embedding].
  set (v := vocab (tokenize morphs tr)).
  assert (∀ sen, Forall (λ i, is_Some (set_embedding v fasttext_simple !! i))
                   (pad_row maxlen post pre value (to_idx v sen))) as Hrow.
  { intros sen.
    assert (2 ≤ len v) as Hlen by (unfold v, vocab; apply mkVocab_len).
    destruct (encode_row_ok v sen) as [_ Hids].
    { intros token. unfold v, vocab. apply getitem_valid. }
    eapply Forall_impl; [exact Hids|]. intros i Hi. simpl in Hi.
    apply lookup_lt_is_Some. rewrite set_embedding_length.
    unfold value in Hi. lia. }
  unfold encode, pad_sequences. rewrite !Forall_app, !Forall_fmap.
  repeat split; apply Forall_forall; intros sen _; apply Hrow.
Qed.

(** X9: the row of the embedding matrix a token is sent to: a token of
    the vocabulary other than "<unk>" is looked up to the row holding
    its own pretrained vector; "<unk>" and every token outside the
    vocabulary are looked up to the row holding the source's unknown
    vector. *)
Theorem token_embedding_row (morphs : string → list string) {V : Type}
    (fasttext_simple : TokenEmbedding V) (tr val tst : list string) (token : string) :
  let ns := preprocess morphs fasttext_simple tr val tst in
  ns_embedding ns !! getitem (token_to_idx (ns_vocab ns)) token =
  Some (if decide (token ∈ idx_to_token (ns_vocab ns) ∧ token ≠ "<unk>"%string)
        then vec_of fasttext_simple token
        else unknown_vec fasttext_simple).
Proof.
  intros ns. subst ns. unfold preprocess, final_preprocessing, build_vocab.
  cbn [ns_vocab ns_embedding].
  set (v := vocab (tokenize morphs tr)).
  pose proof (vocab_wf (tokenize morphs tr)) as Hwf. fold v in Hwf.
  pose proof (mkVocab_tokens (counter (tokenize morphs tr)) 15) as Htok.
  fold (vocab (tokenize morphs tr)) in Htok. fold v in Htok.
  unfold set_embedding. rewrite Htok. cbn [app].
  destruct (decide _) as [[Hin Hne]|Hnot].
  - apply list_elem_of_lookup_1 in Hin as [i Hi].
    assert (getitem (token_to_idx v) token = i) as ->
      by (apply getitem_known; [done|by rewrite Htok]).
    destruct i as [|i]; [simpl in Hi; congruence|].
    set (rest := ("<pad>"%string :: frequent_tokens (counter (tokenize morphs tr)) 15)).
    change (rest !! i = Some token) in Hi.
    change ((vec_of fasttext_simple <$> rest) !! i = Some (vec_of fasttext_simple token)).
    by rewrite list_lookup_fmap, Hi.
  - destruct (decide (token = "<unk>"%string)) as [->|Hne].
    + assert (getitem (token_to_idx v) "<unk>" = 0) as ->
        by (apply getitem_known; [done|by rewrite Htok]).
      done.
    + rewrite getitem_unknown; [done..|]. rewrite Htok. tauto.
Qed.

(** X10: the encoded row of every review, whatever its length: the last
    30 of its token ids (all of them when there are at most 30),
    followed by the pad value up to length 30; a review of exactly 30
    tokens is its 30 ids. *)
Theorem row_is_last_30_ids_then_padding (morphs : string → list string)
    (v : Vocab) (document : string) :
  let ids := to_idx v (morphs document) in
  encode_review morphs v document =
    drop (length ids - 30) ids ++ replicate (30 - length ids) value ∧
  (length (morphs document) = 30 → encode_review morphs v document = ids).
Proof.
  intros ids.
  assert (length ids = length (morphs document)) as Hlen
    by (unfold ids, to_idx; apply length_fmap).
  assert (encode_review morphs v document =
    drop (length ids - 30) ids ++ replicate (30 - length ids) value) as Heq.
  { unfold encode_review. fold ids. unfold maxlen.
    destruct (decide (length ids ≤ 30)) as [Hle|Hgt].
    - rewrite pad_row_post_pre_short by lia.
      by replace (length ids - 30) with 0 by lia.
    - rewrite pad_row_post_pre_long by lia.
      replace (30 - length ids) with 0 by lia. by rewrite app_nil_r. }
  split; [exact Heq|]. intros H30. rewrite Heq.
  replace (length ids - 30) with 0 by lia. replace (30 - length ids) with 0 by lia.
  apply app_nil_r.
Qed.

(** X11: padding cannot be told from the text: a review of fewer than
    30 tokens and the same review with the token "<pad>" added at its
    end are encoded as the same row. *)
Theorem padding_equals_pad_token (morphs : string → list string)
    (X_tr : list (list string)) (d d' : string) :
  length (morphs d) < 30 →
  morphs d' = morphs d ++ ["<pad>"%string] →
  encode_review morphs (vocab X_tr) d' = encode_review morphs (vocab X_tr) d.
Proof.
  intros Hlen Hd'. unfold encode_review. rewrite Hd'.
  unfold to_idx. rewrite fmap_app. cbn [fmap list_fmap].
  assert (getitem (token_to_idx (vocab X_tr)) "<pad>" = 1) as ->.
  { apply getitem_known; [apply vocab_wf|]. unfold vocab. by rewrite mkVocab_tokens. }
  unfold maxlen.
  rewrite !pad_row_post_pre_short; rewrite ?length_app, ?length_fmap; simpl; try lia.
  rewrite <-app_assoc. f_equal. unfold value.
  replace (30 - length (morphs d)) with (S (30 - (length (morphs d) + 1))) by lia.
  done.
Qed.

Lemma row_is_last_30_ids_then_padding_witness :
  let doc := "012345678901234567890123456789"%string in
  let v := vocab demo_sentences in
  length (char_tokens doc) = 30 ∧
  encode_review char_tokens v doc =
  to_idx v (char_tokens doc).
Proof.
  intros doc v.
  assert (length (char_tokens doc) = 30) as H30 by (vm_compute; reflexivity).
  split; [exact H30|].
  exact (proj2 (row_is_last_30_ids_then_padding char_tokens v doc) H30).
Defined.

Lemma padding_equals_pad_token_witness :
  let morphs (s : string) : list string :=
    if decide (s = "a"%string) then ["good"%string] else ["good"; "<pad>"]%string in
  length (morphs "a"%string) < 30 ∧
  morphs "b"%string = morphs "a"%string ++ ["<pad>"%string] ∧
  encode_review morphs (vocab demo_sentences) "b" =
  encode_review morphs (vocab demo_sentences) "a".
Proof.
  intros morphs.
  assert (length (morphs "a"%string) < 30) as Hlen by (vm_compute; lia).
  assert (morphs "b"%string = morphs "a"%string ++ ["<pad>"%string]) as Hd
    by (vm_compute; reflexivity).
  repeat (split; [assumption|]).
  exact (padding_equals_pad_token morphs demo_sentences "a" "b" Hlen Hd).
Defined.

(** X22: the counter of cell 6 holds every token of the training split
    with the number of its occurrences there, and no other key. *)
Theorem counter_counts_training_tokens (X_tr : list (list string)) (token : string) :
  counter X_tr !! token =
    (if decide (occurrences token (concat X_tr) = 0) then None
     else Some (occurrences token (concat X_tr))) ∧
  (token ∈ dom (counter X_tr) ↔ token ∈ concat X_tr).
Proof.
  assert (counter X_tr !! token =
    (if decide (occurrences token (concat X_tr) = 0) then None
     else Some (occurrences token (concat X_tr)))) as Hlookup
    by (unfold counter; apply count_tokens_lookup).
  split; [exact Hlookup|].
  rewrite elem_of_dom, Hlookup. unfold occurrences.
  set (hits := filter (λ t, t = token) (concat X_tr)).
  assert (token ∈ concat X_tr ↔ hits ≠ []) as ->.
  { split.
    - intros Hin Hnil.
      assert (token ∈ hits) as Hf by by apply list_elem_of_filter.
      rewrite Hnil in Hf. by apply elem_of_nil in Hf.
    - intros Hne. destruct hits as [|t l] eqn:Hf; [done|].
      assert (t ∈ hits) as Ht by (rewrite Hf; left).
      by apply list_elem_of_filter in Ht as [-> ?]. }
  destruct (decide (length hits = 0)) as [H0|H0].
  - apply nil_length_inv in H0. split; [by intros [? ?]|done].
  - split; [|by eexists]. intros _ Hnil. apply H0. by rewrite Hnil.
Qed.
End preprocessing_properties.

(** ** Batches and the training loop *)

Module batching_facts.
Import training.

Section groups.
Context {A : Type}.
Variable k : nat.
Hypothesis k_pos : 0 < k.

Lemma batch_from_lookup (n : nat) :
  ∀ (l : list A) (i : nat), length l ≤ n →
    batch_from n k l !! i =
    if decide (i * k < length l) then Some (take k (drop (i * k) l)) else None.
Proof using k_pos.
  induction n as [|n IH]; intros l i Hn.
  - destruct l; [|simpl in Hn; lia]. cbn [batch_from length].
    by rewrite decide_False by lia.
  - destruct l as [|a l]; [cbn [batch_from length]; by rewrite decide_False by lia|].
    cbn [batch_from]. destruct i as [|i].
    + rewrite decide_True by (cbn [length]; lia). done.
    + change ((take k (a :: l) :: batch_from n k (drop k (a :: l))) !! S i)
        with (batch_from n k (drop k (a :: l)) !! i).
      rewrite IH by (rewrite length_drop; simpl in *; lia).
      rewrite length_drop, drop_drop.
      replace (k + i * k) with (S i * k) by lia.
      destruct (decide (i * k < length (a :: l) - k));
        [rewrite decide_True by lia|rewrite decide_False by lia]; done.
Qed.

Lemma batch_from_length (n : nat) :
  ∀ l : list A, length l ≤ n → length (batch_from n k l) = (length l + k - 1) / k.
Proof using k_pos.
  induction n as [|n IH]; intros l Hn.
  - destruct l; [|simpl in Hn; lia]. simpl. symmetry. apply Nat.div_small. lia.
  - destruct l as [|a l]; [simpl; symmetry; apply Nat.div_small; lia|].
    cbn [batch_from length]. rewrite IH by (rewrite length_drop; simpl in *; lia).
    rewrite length_drop. set (len := length (a :: l)).
    assert (0 < len) as Hlen by (unfold len; simpl; lia).
    change (S (length l)) with len.
    destruct (decide (k ≤ len)) as [Hle|Hgt].
    + replace (len + k - 1) with ((len - k + k - 1) + 1 * k) by lia.
      rewrite Nat.div_add by lia. lia.
    + replace (len - k + k - 1) with (k - 1) by lia.
      rewrite (Nat.div_small (k - 1)) by lia.
      apply (Nat.div_unique _ _ _ (len - 1)); lia.
Qed.

Lemma batch_from_concat (n : nat) :
  ∀ l : list A, length l ≤ n → concat (batch_from n k l) = l.
Proof using k_pos.
  induction n as [|n IH]; intros l Hn.
  - by destruct l; [|simpl in Hn; lia].
  - destruct l as [|a l]; [done|].
    cbn [batch_from concat]. rewrite IH by (rewrite length_drop; simpl in *; lia).
    apply take_drop.
Qed.
End groups.

Lemma concat_fmap_fmap {A B} (f : A → B) (ls : list (list A)) :
  concat ((λ l : list A, f <$> l) <$> ls) = f <$> concat ls.
Proof.
  induction ls as [|l ls IH]; [done|].
  rewrite fmap_cons. cbn [concat]. by rewrite fmap_app, IH.
Qed.

Lemma ceil_div_100 (n : nat) :
  (n + 99) / 100 = n / 100 + (if decide (n `mod` 100 = 0) then 0 else 1).
Proof.
  pose proof (Nat.div_mod_eq n 100) as Hn.
  pose proof (Nat.mod_upper_bound n 100 ltac:(lia)) as Hr.
  destruct (decide (n `mod` 100 = 0)) as [H0|H0].
  - rewrite Nat.add_0_r. symmetry. apply (Nat.div_unique _ _ _ 99); lia.
  - symmetry. apply (Nat.div_unique _ _ _ (n `mod` 100 - 1)); lia.
Qed.

(** The batches of a dataset of rows [X] with labels [y]. *)
Lemma batch_lookup (X : list (list nat)) (y : list nat) (i : nat) :
  length X = length y →
  batch batch_size (from_tensor_slices X y) !! i =
  if decide (i * 100 < length X)
  then Some (take 100 (drop (i * 100) X), take 100 (drop (i * 100) y))
  else None.
Proof.
  intros Hlen. unfold batch, from_tensor_slices, batch_size.
  rewrite list_lookup_fmap, batch_from_lookup by (done || lia).
  rewrite length_zip, <-Hlen, Nat.min_id.
  destruct (decide (i * 100 < length X)); [|done]. simpl.
  by rewrite !fmap_take, !fmap_drop, fst_zip, snd_zip by lia.
Qed.

Lemma batch_length (l : list (list nat * nat)) :
  length (batch batch_size l) = (length l + 99) / 100.
Proof.
  unfold batch, batch_size.
  rewrite length_fmap, batch_from_length by (done || lia).
  f_equal. lia.
Qed.

Lemma from_tensor_slices_length (X : list (list nat)) (y : list nat) :
  length X = length y → length (from_tensor_slices X y) = length X.
Proof. intros Hlen. unfold from_tensor_slices. rewrite length_zip. lia. Qed.

Lemma ceil_div_pos (n : nat) : 0 < n → (n + 99) / 100 ≠ 0.
Proof.
  intros Hn. pose proof (Nat.div_str_pos (n + 99) 100 ltac:(lia)). lia.
Qed.

Lemma batch_concat (X : list (list nat)) (y : list nat) :
  length X = length y →
  concat (batch batch_size (from_tensor_slices X y)).*1 = X ∧
  concat (batch batch_size (from_tensor_slices X y)).*2 = y.
Proof.
  intros Hlen. unfold batch, from_tensor_slices, batch_size.
  rewrite <-!list_fmap_compose.
  change (fst ∘ (λ b : list (list nat * nat), (b.*1, b.*2)))
    with (λ l : list (list nat * nat), l.*1).
  change (snd ∘ (λ b : list (list nat * nat), (b.*1, b.*2)))
    with (λ l : list (list nat * nat), l.*2).
  rewrite !concat_fmap_fmap, !batch_from_concat by (done || lia).
  by rewrite fst_zip, snd_zip by lia.
Qed.
End batching_facts.

Module training_more.
Import tensorflow morphconv training training_facts batching_facts.

Section loop.
Context {F : Type} `{FloatOps F}.
Context {OptState RandomState : Type}.
Variable gradients : (gmap string (Tensor F) → F) → gmap string (Tensor F) → string → Tensor F.
Variable adam_update : OptState → string → Tensor F → Tensor F → Tensor F.
Variable adam_next : OptState → OptState.
Variable shuffle : list (list nat * nat) → RandomState → list (list nat * nat) * RandomState.
Variable random_uniform : nat → nat → RandomState → list (list F) * RandomState.
Variable m : MorphConv (F := F).
Variable n_of_classes : nat.

Local Abbreviation Session := (Session (F := F) (OptState := OptState) (RandomState := RandomState)).
Local Abbreviation train_on := (train_on gradients adam_update adam_next random_uniform m n_of_classes).
Local Abbreviation run_training :=
  (run_training gradients adam_update adam_next random_uniform m n_of_classes).
Local Abbreviation run_validation :=
  (run_validation (OptState := OptState) (RandomState := RandomState) m).
Local Abbreviation losses_tr :=
  (losses_tr gradients adam_update adam_next random_uniform m n_of_classes).
Local Abbreviation losses_val :=
  (losses_val (OptState := OptState) (RandomState := RandomState) m).

Lemma minimize_dom (g : Graph F) (loss : Run F → F) (r : Run F) (opt : OptState) :
  dom (minimize gradients adam_update adam_next g loss r opt).1 = dom (variables r).
Proof.
  unfold minimize. cbn [fst]. apply dom_imap_L. intros i. rewrite elem_of_dom. split.
  - intros [x Hx]. exists x. split; [done|]. by eexists.
  - intros (x & Hx & _). by exists x.
Qed.

Lemma train_on_step (b : Batch) (s : Session) :
  sess_opt (train_on b s).2 = adam_next (sess_opt s) ∧
  dom (sess_variables (train_on b s).2) = dom (sess_variables s).
Proof.
  unfold training.train_on. destruct (random_uniform _ _ _) as [u rng].
  pose proof (minimize_dom (graph m) (total_loss m)
    {| variables := sess_variables s; X := b.1; y := b.2;
       is_training := true; noise := u |} (sess_opt s)) as Hdom.
  unfold training_op.
  assert ((minimize gradients adam_update adam_next (graph m) (total_loss m)
             {| variables := sess_variables s; X := b.1; y := b.2;
                is_training := true; noise := u |} (sess_opt s)).2 =
          adam_next (sess_opt s)) as Hopt by done.
  destruct (minimize _ _ _ _ _ _ _) as [vars opt]. simpl in *. by split.
Qed.

Lemma losses_tr_steps (bs : list Batch) :
  ∀ s : Session,
    sess_opt (losses_tr bs s).2 = Nat.iter (length bs) adam_next (sess_opt s) ∧
    dom (sess_variables (losses_tr bs s).2) = dom (sess_variables s).
Proof.
  induction bs as [|b bs IH]; intros s; [done|].
  cbn [training.losses_tr].
  set (s0 := {| sess_variables := sess_variables s; sess_opt := sess_opt s;
                sess_rng := sess_rng s; tr_iterator := bs;
                val_iterator := val_iterator s |}).
  pose proof (train_on_step b s0) as [Hopt Hdom].
  destruct (train_on b s0) as [loss s1]. simpl in Hopt, Hdom.
  destruct (IH s1) as [IHopt IHdom].
  destruct (losses_tr bs s1) as [ls s2]. simpl in IHopt, IHdom. cbn [snd length].
  split.
  - by rewrite IHopt, Hopt, Nat.iter_succ_r.
  - by rewrite IHdom, Hdom.
Qed.

Lemma losses_val_frame (bs : list Batch) :
  ∀ s : Session,
    sess_opt (losses_val bs s).2 = sess_opt s ∧
    sess_rng (losses_val bs s).2 = sess_rng s.
Proof.
  induction bs as [|b bs IH]; intros s; [done|].
  cbn [training.losses_val].
  set (s0 := {| sess_variables := sess_variables s; sess_opt := sess_opt s;
                sess_rng := sess_rng s; tr_iterator := tr_iterator s;
                val_iterator := bs |}).
  unfold training.validate_on. cbn [fst snd].
  destruct (IH s0) as [Hopt Hrng].
  destruct (losses_val bs s0) as [ls s2]. by simpl in *.
Qed.

Variables (X_tr X_val : list (list nat)) (y_tr y_val : list nat).

Local Abbreviation epoch :=
  (epoch gradients adam_update adam_next shuffle random_uniform m n_of_classes
         X_tr X_val y_tr y_val).
Local Abbreviation run_epochs :=
  (run_epochs gradients adam_update adam_next shuffle random_uniform m n_of_classes
              X_tr X_val y_tr y_val).



Lemma tr_iterator_length (s : Session) :
  length X_tr = length y_tr →
  (∀ l st, length (shuffle l st).1 = length l) →
  length (tr_iterator (run_tr_initializer shuffle X_tr y_tr s)) =
  (length X_tr + 99) / 100.
Proof.
  intros Hlen Hshuffle. unfold run_tr_initializer.
  pose proof (Hshuffle (from_tensor_slices X_tr y_tr) (sess_rng s)) as Hs.
  destruct (shuffle _ _) as [data rng]. cbn [tr_iterator]. simpl in Hs.
  by rewrite batch_length, Hs, from_tensor_slices_length.
Qed.

Lemma val_iterator_length (s : Session) :
  length X_val = length y_val →
  length (val_iterator (run_val_initializer X_val y_val s)) = (length X_val + 99) / 100.
Proof.
  intros Hlen. unfold run_val_initializer. cbn [val_iterator].
  by rewrite batch_length, from_tensor_slices_length.
Qed.

(** With enough runs allowed, an epoch ends, and it ends with the two
    averages unless a phase had no batch. *)
Lemma epoch_result (fuel : nat) (s : Session) :
  length X_tr = length y_tr → length X_val = length y_val →
  (∀ l st, length (shuffle l st).1 = length l) →
  (length X_tr + 99) / 100 < fuel → (length X_val + 99) / 100 < fuel →
  ∃ s' avg_tr avg_val,
    epoch fuel s =
    Some (s', match divide avg_tr ((length X_tr + 99) / 100) with
              | inl e => inl e
              | inr a =>
                  match divide avg_val ((length X_val + 99) / 100) with
                  | inl e => inl e
                  | inr b => inr (a, b)
                  end
              end).
Proof.
  intros Htr Hval Hshuffle Hft Hfv. unfold training.epoch.
  set (s_tr := run_tr_initializer shuffle X_tr y_tr s).
  pose proof (tr_iterator_length s Htr Hshuffle) as Hnt. fold s_tr in Hnt.
  destruct (while_true_training gradients adam_update adam_next random_uniform
              m n_of_classes (tr_iterator s_tr) s_tr (of_nat 0) 0 eq_refl) as [_ Hts].
  rewrite Hts by lia. cbn [mbind option_bind].
  set (s_val := run_val_initializer X_val y_val _).
  pose proof (val_iterator_length (losses_tr (tr_iterator s_tr) s_tr).2 Hval) as Hnv.
  fold s_val in Hnv.
  destruct (while_true_validation m (val_iterator s_val) s_val (of_nat 0) 0 eq_refl)
    as [_ Hvs].
  rewrite Hvs by lia. cbn [mbind option_bind Nat.add].
  rewrite Hnt, Hnv.
  exists (losses_val (val_iterator s_val) s_val).2,
         (foldl fadd (of_nat 0) (losses_tr (tr_iterator s_tr) s_tr).1),
         (foldl fadd (of_nat 0) (losses_val (val_iterator s_val) s_val).1).
  destruct (divide _ ((length X_tr + 99) / 100)); [done|].
  by destruct (divide _ ((length X_val + 99) / 100)).
Qed.
End loop.
End training_more.

Section training_properties.
Import tensorflow morphconv training evaluation.
Import training_facts batching_facts training_more examples more_examples.

(** X12: the batches of a dataset are its rows and labels cut into
    consecutive groups of 100: batch [i] holds rows and labels
    [100 i .. 100 i + 99] (fewer in the last one), so the batches put
    end to end give back the rows and the labels in order, no batch is
    empty or longer than 100, and rows and labels stay aligned. *)
Theorem batches_cover_the_dataset_in_order (X : list (list nat)) (y : list nat) :
  length X = length y →
  let bs := batch batch_size (from_tensor_slices X y) in
  (∀ i, bs !! i =
        if decide (i * 100 < length X)
        then Some (take 100 (drop (i * 100) X), take 100 (drop (i * 100) y))
        else None) ∧
  concat bs.*1 = X ∧ concat bs.*2 = y ∧
  Forall (λ b : Batch, 0 < length b.1 ≤ 100 ∧ length b.2 = length b.1) bs.
Proof.
  intros Hlen bs.
  assert (∀ i, bs !! i =
        if decide (i * 100 < length X)
        then Some (take 100 (drop (i * 100) X), take 100 (drop (i * 100) y))
        else None) as Hlookup by (intros i; by apply batch_lookup).
  split; [exact Hlookup|].
  destruct (batch_concat X y Hlen) as [HX Hy].
  split; [exact HX|]. split; [exact Hy|].
  apply Forall_lookup. intros i b Hb. rewrite Hlookup in Hb.
  destruct (decide (i * 100 < length X)) as [Hi|]; [|discriminate].
  injection Hb as <-. cbn [fst snd]. rewrite !length_take, !length_drop. lia.
Qed.

Lemma batches_cover_the_dataset_in_order_witness :
  let X := replicate 250 [2; 3] in
  let y := replicate 250 1 in
  length X = length y ∧
  concat (batch batch_size (from_tensor_slices X y)).*1 = X ∧
  length (batch batch_size (from_tensor_slices X y)) = 3.
Proof.
  intros X y.
  assert (length X = length y) as Hlen by (vm_compute; reflexivity).
  split; [exact Hlen|].
  split; [exact (proj1 (proj2 (batches_cover_the_dataset_in_order X y Hlen)))|].
  vm_compute. reflexivity.
Defined.

Section loop.
Context {F : Type} `{FloatOps F}.
Context {OptState RandomState : Type}.
Variable gradients :
  (gmap string (Tensor F) → F) → gmap string (Tensor F) → string → Tensor F.
Variable adam_update : OptState → string → Tensor F → Tensor F → Tensor F.
Variable adam_next : OptState → OptState.
Variable shuffle :
  list (list nat * nat) → RandomState → list (list nat * nat) * RandomState.
Variable random_uniform : nat → nat → RandomState → list (list F) * RandomState.
Variable m : MorphConv (F := F).
Variable n_of_classes : nat.

Local Abbreviation Session :=
  (Session (F := F) (OptState := OptState) (RandomState := RandomState)).
Local Abbreviation run_training :=
  (run_training gradients adam_update adam_next random_uniform m n_of_classes).
Local Abbreviation run_validation :=
  (run_validation (OptState := OptState) (RandomState := RandomState) m).
Local Abbreviation losses_tr :=
  (losses_tr gradients adam_update adam_next random_uniform m n_of_classes).
Local Abbreviation losses_val :=
  (losses_val (OptState := OptState) (RandomState := RandomState) m).
Local Abbreviation epoch :=
  (epoch gradients adam_update adam_next shuffle random_uniform m n_of_classes).
Local Abbreviation run_epochs :=
  (run_epochs gradients adam_update adam_next shuffle random_uniform m n_of_classes).

(** X13: [total_step] of cell 10 counts the full batches only: when
    the shuffle keeps the number of elements, an epoch of training
    runs [total_step] steps if the number of training rows is a
    multiple of 100, and one step more (the short last batch) if it is
    not. *)
Theorem total_step_misses_the_short_batch (X_tr : list (list nat)) (y_tr : list nat)
    (s : Session) :
  length X_tr = length y_tr →
  (∀ l st, length (shuffle l st).1 = length l) →
  length (tr_iterator (run_tr_initializer shuffle X_tr y_tr s)) =
  total_step X_tr + (if decide (length X_tr `mod` 100 = 0) then 0 else 1).
Proof.
  intros Hlen Hshuffle. rewrite tr_iterator_length by done.
  unfold total_step, batch_size. apply ceil_div_100.
Qed.

(** X14: the validation phase only reads: when it has ended, the
    session's variables, optimizer slots, generator and training
    iterator are what they were before it, and the validation iterator
    is used up. *)
Theorem validation_phase_only_reads (s : Session) (avg : F) (step fuel : nat) :
  length (val_iterator s) < fuel →
  ∃ s' avg',
    while_true run_validation fuel s avg step =
      Some (s', avg', step + length (val_iterator s)) ∧
    sess_variables s' = sess_variables s ∧ sess_opt s' = sess_opt s ∧
    sess_rng s' = sess_rng s ∧ tr_iterator s' = tr_iterator s ∧
    val_iterator s' = [].
Proof.
  intros Hfuel.
  destruct (while_true_validation m (val_iterator s) s avg step eq_refl) as [_ Hsome].
  eexists _, _. split; [by apply Hsome|].
  destruct (losses_val_facts (OptState := OptState) (RandomState := RandomState)
              m (val_iterator s) s) as (_ & Htr & Hval & Hvars).
  destruct (losses_val_frame (OptState := OptState) (RandomState := RandomState)
              m (val_iterator s) s) as [Hopt Hrng].
  repeat split; [done..|]. by apply Hval.
Qed.

(** X15: the training phase runs the optimizer once per batch: when it
    has ended, the optimizer slots have been stepped as many times as
    the iterator held batches, the validation iterator is untouched,
    and the session holds the same variable names as before. *)
Theorem one_optimizer_step_per_batch (s : Session) (avg : F) (step fuel : nat) :
  length (tr_iterator s) < fuel →
  ∃ s' avg',
    while_true run_training fuel s avg step =
      Some (s', avg', step + length (tr_iterator s)) ∧
    sess_opt s' = Nat.iter (length (tr_iterator s)) adam_next (sess_opt s) ∧
    val_iterator s' = val_iterator s ∧
    dom (sess_variables s') = dom (sess_variables s).
Proof.
  intros Hfuel.
  destruct (while_true_training gradients adam_update adam_next random_uniform
              m n_of_classes (tr_iterator s) s avg step eq_refl) as [_ Hsome].
  eexists _, _. split; [by apply Hsome|].
  destruct (losses_tr_facts gradients adam_update adam_next random_uniform
              m n_of_classes (tr_iterator s) s) as (_ & Hval & _ & _).
  destruct (losses_tr_steps gradients adam_update adam_next random_uniform
              m n_of_classes (tr_iterator s) s) as [Hopt Hdom].
  by repeat split.
Qed.



(** X18: with both splits non-empty (labels as many as rows, a shuffle
    that keeps the number of elements) and enough runs allowed, the
    loop over [n] epochs ends without exception, and each of the two
    loss histories holds one entry per epoch. *)
Theorem training_completes_with_one_entry_per_epoch (X_tr X_val : list (list nat))
    (y_tr y_val : list nat) (n fuel : nat) (s : Session) :
  X_tr ≠ [] → X_val ≠ [] →
  length X_tr = length y_tr → length X_val = length y_val →
  (∀ l st, length (shuffle l st).1 = length l) →
  (length X_tr + 99) / 100 < fuel → (length X_val + 99) / 100 < fuel →
  ∃ s' tr_loss_hist val_loss_hist,
    run_epochs X_tr X_val y_tr y_val n fuel s [] [] =
      Some (s', inr (tr_loss_hist, val_loss_hist)) ∧
    length tr_loss_hist = n ∧ length val_loss_hist = n.
Proof.
  intros Hnt Hnv Htr Hval Hshuffle Hft Hfv.
  assert (∀ n (s : Session) (trh vh : list F),
    ∃ s' trh' vh',
      run_epochs X_tr X_val y_tr y_val n fuel s trh vh = Some (s', inr (trh', vh')) ∧
      length trh' = length trh + n ∧ length vh' = length vh + n) as Hgen.
  { clear n s. induction n as [|n IH]; intros s trh vh.
    - exists s, trh, vh. cbn [training.run_epochs]. repeat split; lia.
    - destruct (epoch_result gradients adam_update adam_next shuffle random_uniform
                  m n_of_classes X_tr X_val y_tr y_val fuel s Htr Hval Hshuffle Hft Hfv)
        as (s1 & a & b & Hep).
      cbn [training.run_epochs]. rewrite Hep. cbn [mbind option_bind].
      unfold divide.
      rewrite !decide_False
        by (apply ceil_div_pos; destruct X_tr, X_val; simpl; done || lia).
      destruct (IH s1 (trh ++ [fdiv a (of_nat ((length X_tr + 99) / 100))])
                      (vh ++ [fdiv b (of_nat ((length X_val + 99) / 100))]))
        as (s' & trh' & vh' & Hrun & Hlt & Hlv).
      exists s', trh', vh'. split; [exact Hrun|].
      rewrite length_app in Hlt, Hlv. simpl in Hlt, Hlv. lia. }
  destruct (Hgen n s [] []) as (s' & trh & vh & Hrun & Hlt & Hlv).
  exists s', trh, vh. by repeat split.
Qed.
End loop.

Lemma total_step_misses_the_short_batch_witness :
  let X_tr := replicate 250 [2; 3] in
  let y_tr := replicate 250 1 in
  length X_tr = length y_tr ∧
  (∀ l st, length (demo_shuffle l st).1 = length l) ∧
  total_step X_tr = 2 ∧
  length (tr_iterator (run_tr_initializer demo_shuffle X_tr y_tr demo_session)) =
  total_step X_tr + (if decide (length X_tr `mod` 100 = 0) then 0 else 1).
Proof.
  intros X_tr y_tr.
  assert (length X_tr = length y_tr) as Hlen by (vm_compute; reflexivity).
  assert (∀ l st, length (demo_shuffle l st).1 = length l) as Hshuffle
    by (intros l st; simpl; apply length_reverse).
  split; [exact Hlen|]. split; [exact Hshuffle|].
  split; [vm_compute; reflexivity|].
  exact (total_step_misses_the_short_batch demo_shuffle X_tr y_tr demo_session
           Hlen Hshuffle).
Defined.

Lemma validation_phase_only_reads_witness :
  let s := run_val_initializer demo_X_val demo_y_val demo_session in
  length (val_iterator s) < 2 ∧
  ∃ s' avg',
    while_true (run_validation demo_model) 2 s 0%Q 0 =
      Some (s', avg', 0 + length (val_iterator s)) ∧
    sess_variables s' = sess_variables s ∧ sess_opt s' = sess_opt s ∧
    sess_rng s' = sess_rng s ∧ tr_iterator s' = tr_iterator s ∧
    val_iterator s' = [].
Proof.
  intros s.
  assert (length (val_iterator s) < 2) as Hfuel by (vm_compute; lia).
  split; [exact Hfuel|].
  exact (validation_phase_only_reads demo_model s 0%Q 0 2 Hfuel).
Defined.

Lemma one_optimizer_step_per_batch_witness :
  let s := run_tr_initializer demo_shuffle demo_X_tr demo_y_tr demo_session in
  length (tr_iterator s) < 2 ∧
  ∃ s' avg',
    while_true (run_training demo_gradients demo_adam id demo_uniform demo_model 2)
               2 s 0%Q 0 =
      Some (s', avg', 0 + length (tr_iterator s)) ∧
    sess_opt s' = Nat.iter (length (tr_iterator s)) id (sess_opt s) ∧
    val_iterator s' = val_iterator s ∧
    dom (sess_variables s') = dom (sess_variables s).
Proof.
  intros s.
  assert (length (tr_iterator s) < 2) as Hfuel by (vm_compute; lia).
  split; [exact Hfuel|].
  exact (one_optimizer_step_per_batch demo_gradients demo_adam id demo_uniform
           demo_model 2 s 0%Q 0 2 Hfuel).
Defined.



Lemma training_completes_with_one_entry_per_epoch_witness :
  (demo_X_tr ≠ [] ∧ demo_X_val ≠ [] ∧
   length demo_X_tr = length demo_y_tr ∧ length demo_X_val = length demo_y_val ∧
   (∀ l st, length (demo_shuffle l st).1 = length l) ∧
   (length demo_X_tr + 99) / 100 < 2 ∧ (length demo_X_val + 99) / 100 < 2) ∧
  ∃ s' tr_loss_hist val_loss_hist,
    run_epochs demo_gradients demo_adam id demo_shuffle demo_uniform demo_model 2
               demo_X_tr demo_X_val demo_y_tr demo_y_val epochs 2 demo_session [] [] =
      Some (s', inr (tr_loss_hist, val_loss_hist)) ∧
    length tr_loss_hist = epochs ∧ length val_loss_hist = epochs.
Proof.
  assert (demo_X_tr ≠ []) as Hnt by (vm_compute; discriminate).
  assert (demo_X_val ≠ []) as Hnv by (vm_compute; discriminate).
  assert (length demo_X_tr = length demo_y_tr) as Htr by (vm_compute; reflexivity).
  assert (length demo_X_val = length demo_y_val) as Hval by (vm_compute; reflexivity).
  assert (∀ l st, length (demo_shuffle l st).1 = length l) as Hshuffle
    by (intros l st; simpl; apply length_reverse).
  assert ((length demo_X_tr + 99) / 100 < 2) as Hft by (vm_compute; lia).
  assert ((length demo_X_val + 99) / 100 < 2) as Hfv by (vm_compute; lia).
  split; [by repeat split|].
  exact (training_completes_with_one_entry_per_epoch demo_gradients demo_adam id
           demo_shuffle demo_uniform demo_model 2 demo_X_tr demo_X_val demo_y_tr
           demo_y_val epochs 2 demo_session Hnt Hnv Htr Hval Hshuffle Hft Hfv).
Defined.
End training_properties.

(** ** Prediction and the test pass *)

Module prediction_facts.
Import tensorflow morphconv training evaluation.
Import model_facts kernel_facts training_facts batching_facts.

Section kernels.
Context {F : Type} `{FloatOps F}.

Lemma argmax_from_bound (row : list F) :
  ∀ (best : F) (best_i i : nat),
    best_i < i → argmax_from best best_i i row < i + length row.
Proof.
  induction row as [|a row IH]; intros best best_i i Hi; simpl; [lia|].
  destruct (fltb best a).
  - specialize (IH a i (S i) ltac:(lia)). lia.
  - specialize (IH best best_i (S i) ltac:(lia)). lia.
Qed.

Lemma argmax_bound (row : list F) : row ≠ [] → argmax row < length row.
Proof.
  destruct row as [|a row]; [done|]. intros _. simpl.
  pose proof (argmax_from_bound row a 0 1 ltac:(lia)). lia.
Qed.
End kernels.

Section model.
Context {F : Type} `{FloatOps F}.
Variable he_uniform : nat → nat → nat → list (list (list F)).
Variable glorot_uniform : nat → nat → list (list F).
Variable n_of_classes : nat.
Variable embedding : list (list F).

Local Abbreviation m :=
  (MorphConv_init he_uniform glorot_uniform n_of_classes embedding).

Lemma flattened_rows (r : Run F) :
  flattened m r = features_spec m (variables r) <$> X r.
Proof.
  cbn [flattened MorphConv_init].
  unfold features_spec, bank_features.
  cbn. unfold concat_last3, reduce_max_axis1, tadd, embedding_lookup.
  rewrite <-!list_fmap_compose.
  rewrite !zip_with_fmap_same. rewrite <-!list_fmap_compose.
  rewrite !zip_with_fmap_same.
  apply list_fmap_ext. intros i ids _. unfold compose.
  by rewrite <-app_assoc.
Qed.

Lemma score_rows (r : Run F) :
  score m r = row_logits m (variables r) <$> X r.
Proof.
  change (score m r) with
    ((λ row, vadd (vecmat (units (output_dense m)) row
                          (read2 (variables r) (dense_kernel (output_dense m))))
                  (read1 (variables r) (dense_bias (output_dense m))))
       <$> flattened m r).
  rewrite flattened_rows, <-list_fmap_compose. done.
Qed.

Lemma prediction_rows (r : Run F) :
  is_training r = false →
  prediction m r = row_prediction m (variables r) <$> X r.
Proof.
  intros Hr.
  change (prediction m r) with
    (argmax <$> (if is_training r
                 then nn_dropout (of_Q (1 - (1 # 2))) (noise r) (score m r)
                 else score m r)).
  rewrite Hr, score_rows, <-list_fmap_compose. done.
Qed.

Lemma row_logits_length (st : gmap string (Tensor F)) (ids : list nat) :
  dense_shaped m st → length (row_logits m st ids) = n_of_classes.
Proof.
  intros [Hk Hb]. unfold row_logits.
  rewrite vadd_length, vecmat_length, Hb by done.
  change (units (output_dense m)) with n_of_classes. lia.
Qed.
End model.

Section test.
Context {F : Type} `{FloatOps F}.
Context {OptState RandomState : Type}.
Variable m : MorphConv (F := F).

Local Abbreviation Session :=
  (Session (F := F) (OptState := OptState) (RandomState := RandomState)).

(** The predictions the test loop fetches for one batch. *)
Local Abbreviation fetched :=
  (λ (s : Session) (b : Batch),
     prediction m {| variables := sess_variables s; X := b.1; y := b.2;
                     is_training := false; noise := [] |}).

Lemma test_loop_batches (s : Session) (bs : list Batch) :
  ∀ y_tst_hat : list nat,
    (∀ fuel, fuel ≤ length bs → test_loop m fuel s bs y_tst_hat = None) ∧
    (∀ fuel, length bs < fuel →
       test_loop m fuel s bs y_tst_hat =
       Some (y_tst_hat ++ concat (fetched s <$> bs))).
Proof.
  induction bs as [|b bs IH]; intros acc.
  - split; intros fuel Hfuel.
    + by replace fuel with 0 by (simpl in Hfuel; lia).
    + destruct fuel as [|fuel]; [simpl in Hfuel; lia|].
      simpl. by rewrite app_nil_r.
  - destruct (IH (acc ++ fetched s b)) as [IHnone IHsome].
    split; intros fuel Hfuel.
    + destruct fuel as [|fuel]; [done|]. cbn [test_loop run_prediction].
      apply IHnone. simpl in Hfuel. lia.
    + destruct fuel as [|fuel]; [simpl in Hfuel; lia|].
      cbn [test_loop run_prediction].
      rewrite IHsome by (simpl in Hfuel; lia).
      rewrite fmap_cons. cbn [concat]. by rewrite app_assoc.
Qed.
End test.
End prediction_facts.

Section prediction_properties.
Import tensorflow morphconv training evaluation.
Import model_facts kernel_facts training_facts batching_facts prediction_facts.
Import examples more_examples.

Section model.
Context {F : Type} `{FloatOps F}.
Context {OptState RandomState : Type}.
Variable he_uniform : nat → nat → nat → list (list (list F)).
Variable glorot_uniform : nat → nat → list (list F).
Variable n_of_classes : nat.
Variable embedding : list (list F).

Local Abbreviation m :=
  (MorphConv_init he_uniform glorot_uniform n_of_classes embedding).
Local Abbreviation Session :=
  (Session (F := F) (OptState := OptState) (RandomState := RandomState)).

(** X19: at inference the model works row by row: the prediction for a
    batch is, for each of its rows in order, the position of the
    largest logit of that row alone, so the label predicted for a
    review does not depend on the other reviews of its batch, and
    [predict] on two batches put together gives the two answers put
    together. *)
Theorem prediction_is_row_by_row :
  (∀ r, is_training r = false →
        prediction m r = row_prediction m (variables r) <$> X r) ∧
  (∀ st X1 X2 u u1 u2,
     predict m st (X1 ++ X2) false u =
     predict m st X1 false u1 ++ predict m st X2 false u2).
Proof.
  split; [intros r Hr; by apply prediction_rows|].
  intros st X1 X2 u u1 u2. unfold predict.
  rewrite !prediction_rows by done. cbn [variables X]. apply fmap_app.
Qed.

(** X20: when the weights of the Dense layer have the shapes the layer
    was built with, every row of the batch gets [n_of_classes] logits,
    and at inference the batch gets one predicted label per row, each
    of them a class label (below [n_of_classes]). *)
Theorem predictions_are_class_labels (r : Run F) :
  0 < n_of_classes → dense_shaped m (variables r) → is_training r = false →
  Forall (λ row, length row = n_of_classes) (score m r) ∧
  length (prediction m r) = length (X r) ∧
  Forall (λ label, label < n_of_classes) (prediction m r).
Proof.
  intros Hn Hshape Hr.
  rewrite score_rows, prediction_rows, length_fmap, !Forall_fmap by done.
  split; [|split; [done|]]; apply Forall_forall; intros ids _; simpl.
  - by apply row_logits_length.
  - unfold row_prediction.
    rewrite <-(row_logits_length he_uniform glorot_uniform n_of_classes embedding
                 (variables r) ids Hshape) at 2.
    apply argmax_bound. intros Hnil.
    pose proof (row_logits_length he_uniform glorot_uniform n_of_classes embedding
                  (variables r) ids Hshape) as Hlen.
    rewrite Hnil in Hlen. simpl in Hlen. lia.
Qed.

(** X21: the test pass of cell 20 predicts every test row once, in
    order: while the runs allowed do not exceed the number of test
    batches the loop has not ended; with one more it has ended, and
    [y_tst_hat] holds, for each row of the test set in order, the
    prediction of that row under the session's variables, as many
    entries as there are test rows. *)
Theorem test_pass_predicts_every_row_once (s : Session) (X_tst : list (list nat))
    (y_tst : list nat) (fuel : nat) :
  length X_tst = length y_tst →
  (fuel ≤ (length X_tst + 99) / 100 → test_pass m fuel s X_tst y_tst = None) ∧
  ((length X_tst + 99) / 100 < fuel →
     test_pass m fuel s X_tst y_tst =
       Some (row_prediction m (sess_variables s) <$> X_tst) ∧
     ∀ y_tst_hat, test_pass m fuel s X_tst y_tst = Some y_tst_hat →
                  length y_tst_hat = length y_tst).
Proof.
  intros Hlen. unfold test_pass, run_tst_initializer.
  set (bs := batch batch_size (from_tensor_slices X_tst y_tst)).
  assert (length bs = (length X_tst + 99) / 100) as Hbs
    by (unfold bs; by rewrite batch_length, from_tensor_slices_length).
  destruct (test_loop_batches m s bs []) as [Hnone Hsome].
  split; [intros Hfuel; apply Hnone; lia|]. intros Hfuel.
  assert (test_loop m fuel s bs [] =
          Some (row_prediction m (sess_variables s) <$> X_tst)) as Hrun.
  { rewrite Hsome by lia. cbn [app]. f_equal.
    assert ((λ b : Batch,
               prediction m {| variables := sess_variables s; X := b.1; y := b.2;
                               is_training := false; noise := [] |}) <$> bs =
            (λ rows : list (list nat), row_prediction m (sess_variables s) <$> rows)
              <$> bs.*1) as ->.
    { rewrite <-list_fmap_compose. apply list_fmap_ext. intros i b _.
      unfold compose. by rewrite prediction_rows. }
    rewrite concat_fmap_fmap. unfold bs.
    by rewrite (proj1 (batch_concat X_tst y_tst Hlen)). }
  split; [exact Hrun|]. intros y_tst_hat Hy. rewrite Hrun in Hy.
  injection Hy as <-. by rewrite length_fmap.
Qed.
End model.

Lemma prediction_is_row_by_row_witness :
  is_training demo_run = false ∧
  prediction demo_model demo_run =
  row_prediction demo_model (variables demo_run) <$> X demo_run.
Proof.
  assert (is_training demo_run = false) as Hr by reflexivity.
  split; [exact Hr|].
  exact (proj1 (prediction_is_row_by_row he_ones glorot_ones 2 demo_embedding)
           demo_run Hr).
Defined.

Lemma predictions_are_class_labels_witness :
  (0 < 2 ∧ dense_shaped demo_model (variables demo_run) ∧
   is_training demo_run = false) ∧
  Forall (λ row, length row = 2) (score demo_model demo_run) ∧
  length (prediction demo_model demo_run) = length (X demo_run) ∧
  Forall (λ label, label < 2) (prediction demo_model demo_run).
Proof.
  assert (0 < 2) as Hn by lia.
  assert (dense_shaped demo_model (variables demo_run)) as Hshape.
  { split; [by_evaluation|by vm_compute]. }
  assert (is_training demo_run = false) as Hr by reflexivity.
  split; [exact (conj Hn (conj Hshape Hr))|].
  exact (predictions_are_class_labels he_ones glorot_ones 2 demo_embedding demo_run
           Hn Hshape Hr).
Defined.

Lemma test_pass_predicts_every_row_once_witness :
  (length demo_X_tst = length demo_y_tst ∧ (length demo_X_tst + 99) / 100 < 2) ∧
  test_pass demo_model 2 demo_session demo_X_tst demo_y_tst =
    Some (row_prediction demo_model (sess_variables demo_session) <$> demo_X_tst) ∧
  (1 ≤ (length demo_X_tst + 99) / 100 ∧
   test_pass demo_model 1 demo_session demo_X_tst demo_y_tst = None).
Proof.
  assert (length demo_X_tst = length demo_y_tst) as Hlen by (vm_compute; reflexivity).
  assert ((length demo_X_tst + 99) / 100 < 2) as Hfuel by (vm_compute; lia).
  assert (1 ≤ (length demo_X_tst + 99) / 100) as H1 by (vm_compute; lia).
  split; [by split|]. split.
  - exact (proj1 (proj2 (test_pass_predicts_every_row_once he_ones glorot_ones 2
             demo_embedding demo_session demo_X_tst demo_y_tst 2 Hlen) Hfuel)).
  - split; [exact H1|].
    exact (proj1 (test_pass_predicts_every_row_once he_ones glorot_ones 2
             demo_embedding demo_session demo_X_tst demo_y_tst 1 Hlen) H1).
Defined.
End prediction_properties.
